(** * metakeule/parser: the rune cursor, the builder stack and the driver

    A shallow embedding of [parser.go] (the revision whose [Parser] carries
    the [err] field and whose states have type [func(p *Parser) State]).

    - Go's [int] is a 64-bit two's complement integer: it is modelled as [Z]
      and every arithmetic operation of the source goes through [wrap].
    - Go's [string] is a sequence of bytes: it is modelled as [list byte].
    - A [rune] is an [int32]; the runes the code handles are results of the
      UTF-8 decoder or the constant [EOF], modelled as [Z].
    - Every method mutates the receiver [*Parser]; the embedding threads the
      parser through a small monad [M] whose results also tell a run-time
      panic (an index or slice out of range, a call of a nil function) and
      an exhausted loop budget apart from a normal return. *)

From Stdlib Require Import ZArith List Lia Bool.
From Stdlib Require Import Strings.String Strings.Ascii Strings.Byte.
From Stdlib Require Import Numbers.DecimalString.
Import ListNotations.
Local Open Scope Z_scope.

(** ** Go integers *)

Module GoInt.

Definition int_min : Z := - 2 ^ 63.
Definition int_max : Z := 2 ^ 63 - 1.

(** Two's complement wrap-around of 64-bit [int] arithmetic. *)
Definition wrap (z : Z) : Z := (z + 2 ^ 63) mod 2 ^ 64 - 2 ^ 63.

(** Wrap-around of [int32] ([rune]) arithmetic. *)
Definition wrap32 (z : Z) : Z := (z + 2 ^ 31) mod 2 ^ 32 - 2 ^ 31.

Definition in_int (z : Z) : Prop := int_min <= z <= int_max.

Definition add (a b : Z) : Z := wrap (a + b).
Definition sub (a b : Z) : Z := wrap (a - b).

End GoInt.

(** ** Go strings *)

Module GoString.

Definition t : Type := list byte.

(** A string literal of the source. *)
Definition lit (s : string) : t := list_byte_of_string s.

Definition len (s : t) : Z := Z.of_nat (List.length s).

(** Numeric value of a byte, and the byte of a value below 256. *)
Definition b2z (b : byte) : Z := Z.of_N (Byte.to_N b).

Definition z2b (z : Z) : byte :=
  match Byte.of_N (Z.to_N z) with
  | Some b => b
  | None => x00
  end.

(** [s[i]] for an index the caller has already checked. *)
Definition at_ (s : t) (i : nat) : Z := b2z (nth i s x00).

(** [s[lo:]]: panics (here [None]) unless [0 <= lo <= len(s)]. *)
Definition slice_from (s : t) (lo : Z) : option t :=
  if (0 <=? lo) && (lo <=? len s) then Some (skipn (Z.to_nat lo) s) else None.

(** [s[lo:hi]]: panics (here [None]) unless [0 <= lo <= hi <= len(s)]. *)
Definition slice (s : t) (lo hi : Z) : option t :=
  if (0 <=? lo) && (lo <=? hi) && (hi <=? len s)
  then Some (firstn (Z.to_nat (hi - lo)) (skipn (Z.to_nat lo) s))
  else None.

Fixpoint eqb (a b : t) : bool :=
  match a, b with
  | [], [] => true
  | x :: a', y :: b' => Byte.eqb x y && eqb a' b'
  | _, _ => false
  end.

Fixpoint has_prefix (s prefix : t) {struct prefix} : bool :=
  match prefix, s with
  | [], _ => true
  | x :: prefix', y :: s' => Byte.eqb x y && has_prefix s' prefix'
  | _ :: _, [] => false
  end.

End GoString.

(** ** The parts of [unicode/utf8] the parser calls *)

Module utf8.

Import GoString.

Definition RuneError : Z := 0xFFFD.
Definition RuneSelf : Z := 0x80.
Definition MaxRune : Z := 0x10FFFF.
Definition surrogateMin : Z := 0xD800.
Definition surrogateMax : Z := 0xDFFF.

Definition maskx : Z := 0x3F.
Definition mask2 : Z := 0x1F.
Definition mask3 : Z := 0x0F.
Definition mask4 : Z := 0x07.

Definition locb : Z := 0x80.
Definition hicb : Z := 0xBF.

(** Codes of the table [first]: the low three bits hold the length of the
    sequence, the high four bits index [acceptRanges]. *)
Definition xx : Z := 0xF1.
Definition as_ : Z := 0xF0.
Definition s1 : Z := 0x02.
Definition s2 : Z := 0x13.
Definition s3 : Z := 0x03.
Definition s4 : Z := 0x23.
Definition s5 : Z := 0x34.
Definition s6 : Z := 0x04.
Definition s7 : Z := 0x44.

(** The 256-entry table [first], row by row. *)
Definition first (b : Z) : Z :=
  if b <? 0x80 then as_
  else if b <? 0xC2 then xx
  else if b <? 0xE0 then s1
  else if b =? 0xE0 then s2
  else if b <? 0xED then s3
  else if b =? 0xED then s4
  else if b <? 0xF0 then s3
  else if b =? 0xF0 then s5
  else if b <? 0xF4 then s6
  else if b =? 0xF4 then s7
  else xx.

(** [acceptRanges[i]] as a pair (lo, hi). *)
Definition acceptRanges (i : Z) : Z * Z :=
  if i =? 0 then (locb, hicb)
  else if i =? 1 then (0xA0, hicb)
  else if i =? 2 then (locb, 0x9F)
  else if i =? 3 then (0x90, hicb)
  else if i =? 4 then (locb, 0x8F)
  else (0, 0).

(** [utf8.DecodeRuneInString]: the rune at the head of [s] and its width in
    bytes; [(RuneError, 0)] on the empty string, [(RuneError, 1)] on an
    invalid or truncated sequence. *)
Definition DecodeRuneInString (s : t) : Z * Z :=
  let n := len s in
  if n <? 1 then (RuneError, 0) else
  let s0 := at_ s 0 in
  let x := first s0 in
  if x >=? as_ then
    let mask := Z.shiftr (GoInt.wrap32 (Z.shiftl x 31)) 31 in
    (Z.lor (Z.land s0 (Z.lnot mask)) (Z.land RuneError mask), 1)
  else
  let sz := Z.land x 7 in
  let accept := acceptRanges (Z.shiftr x 4) in
  if n <? sz then (RuneError, 1) else
  let b1 := at_ s 1 in
  if (b1 <? fst accept) || (snd accept <? b1) then (RuneError, 1) else
  if sz <=? 2 then
    (Z.lor (Z.shiftl (Z.land s0 mask2) 6) (Z.land b1 maskx), 2)
  else
  let b2 := at_ s 2 in
  if (b2 <? locb) || (hicb <? b2) then (RuneError, 1) else
  if sz <=? 3 then
    (Z.lor (Z.lor (Z.shiftl (Z.land s0 mask3) 12)
                  (Z.shiftl (Z.land b1 maskx) 6))
           (Z.land b2 maskx), 3)
  else
  let b3 := at_ s 3 in
  if (b3 <? locb) || (hicb <? b3) then (RuneError, 1) else
  (Z.lor (Z.lor (Z.lor (Z.shiftl (Z.land s0 mask4) 18)
                       (Z.shiftl (Z.land b1 maskx) 12))
                (Z.shiftl (Z.land b2 maskx) 6))
         (Z.land b3 maskx), 4).

(** [utf8.ValidRune]. *)
Definition ValidRune (r : Z) : bool :=
  ((0 <=? r) && (r <? surrogateMin)) || ((surrogateMax <? r) && (r <=? MaxRune)).

(** [string(r)] for a rune: its UTF-8 encoding, the encoding of
    [RuneError] for a rune that is not valid. *)
Definition encode (r : Z) : t :=
  if (0 <=? r) && (r <? 0x80) then [z2b r]
  else if (0 <=? r) && (r <? 0x800) then
    [z2b (Z.lor 0xC0 (Z.shiftr r 6)); z2b (Z.lor 0x80 (Z.land r maskx))]
  else if negb (ValidRune r) then [z2b 0xEF; z2b 0xBF; z2b 0xBD]
  else if r <? 0x10000 then
    [z2b (Z.lor 0xE0 (Z.shiftr r 12));
     z2b (Z.lor 0x80 (Z.land (Z.shiftr r 6) maskx));
     z2b (Z.lor 0x80 (Z.land r maskx))]
  else
    [z2b (Z.lor 0xF0 (Z.shiftr r 18));
     z2b (Z.lor 0x80 (Z.land (Z.shiftr r 12) maskx));
     z2b (Z.lor 0x80 (Z.land (Z.shiftr r 6) maskx));
     z2b (Z.lor 0x80 (Z.land r maskx))].

End utf8.

(** ** The parts of [strings], [strconv], [fmt] and [errors] the parser calls *)

Module strings.

Import GoString.

Fixpoint IndexByte_from (s : t) (c : byte) (i : Z) : Z :=
  match s with
  | [] => -1
  | b :: s' => if Byte.eqb b c then i else IndexByte_from s' c (i + 1)
  end.

(** [strings.IndexByte]. *)
Definition IndexByte (s : t) (c : byte) : Z := IndexByte_from s c 0.

Fixpoint Index_from (s substr : t) (i : Z) : Z :=
  match s with
  | [] => if has_prefix [] substr then i else -1
  | _ :: s' => if has_prefix s substr then i else Index_from s' substr (i + 1)
  end.

(** [strings.Index]: the first offset at which [substr] occurs, or -1. *)
Definition Index (s substr : t) : Z := Index_from s substr 0.

(** [for i, r := range s { if r == utf8.RuneError { return i } }; return -1]:
    [skip] counts the bytes of the current rune still to step over. *)
Fixpoint range_RuneError (s : t) (skip : nat) (i : Z) : Z :=
  match s with
  | [] => -1
  | _ :: s' =>
      match skip with
      | S k => range_RuneError s' k (i + 1)
      | O =>
          let (r, w) := utf8.DecodeRuneInString s in
          if r =? utf8.RuneError then i
          else range_RuneError s' (Z.to_nat w - 1) (i + 1)
      end
  end.

(** [strings.IndexRune]: the offset of the first occurrence of the code
    point [r] in [s], or -1. *)
Definition IndexRune (s : t) (r : Z) : Z :=
  if (0 <=? r) && (r <? utf8.RuneSelf) then IndexByte s (z2b r)
  else if r =? utf8.RuneError then range_RuneError s 0 0
  else if negb (utf8.ValidRune r) then -1
  else Index s (utf8.encode r).

End strings.

Module strconv.

(** Decimal text of an integer, with a leading minus sign when negative. *)
Definition Itoa (z : Z) : GoString.t :=
  GoString.lit (DecimalString.NilZero.string_of_int (Z.to_int z)).

End strconv.

Module fmt.

Import GoString.

(** An operand of [Sprintf]: the parser passes [int]s and [string]s. *)
Inductive arg : Type :=
| ArgInt (n : Z)
| ArgStr (s : t).

Definition pct : byte := "%"%byte.

(** [fmt.Sprintf] on the fragment the parser and its callers use here: the
    verbs [%d] (on an int), [%s] (on a string) and [%%], each without flags,
    width or precision, with exactly as many operands as verbs. [None]
    stands for a call outside this fragment, which the embedding does not
    describe. *)
Fixpoint Sprintf (format : t) (args : list arg) : option t :=
  match format with
  | [] => match args with [] => Some [] | _ :: _ => None end
  | c :: rest =>
      if Byte.eqb c pct then
        match rest with
        | [] => None
        | v :: rest' =>
            if Byte.eqb v pct then option_map (cons pct) (Sprintf rest' args)
            else if Byte.eqb v "d"%byte then
              match args with
              | ArgInt n :: args' =>
                  option_map (app (strconv.Itoa n)) (Sprintf rest' args')
              | _ => None
              end
            else if Byte.eqb v "s"%byte then
              match args with
              | ArgStr s :: args' => option_map (app s) (Sprintf rest' args')
              | _ => None
              end
            else None
        end
      else option_map (cons c) (Sprintf rest args)
  end.

End fmt.

Module errors.

(** An [error] value. [errors.New] allocates a fresh value, and the parser
    compares errors by identity with the package variable [ErrEOF] only:
    a value made by [errors.New] inside [Errorf] is never that variable,
    whatever its text. *)
Inductive error : Type :=
| ErrEOF
| New (text : GoString.t).

Definition is_ErrEOF (e : option error) : bool :=
  match e with
  | Some ErrEOF => true
  | _ => false
  end.

Definition is_nil (e : option error) : bool :=
  match e with
  | None => true
  | Some _ => false
  end.

End errors.

(** ** The parser *)

Import GoString.
Import errors.

(** [var EOF = rune(...)] with the character END OF PROOF between the
    quotes: the code point U+220E. *)
Definition EOF : Z := 0x220E.

(** [type ASTNode interface { AddChild(ASTNode) }]: a value of the interface
    is nil or a reference to an object of the caller, which the embedding
    names by a number. The parser keeps, as [children], the [AddChild] calls
    made on the objects so far (receiver first), in call order. *)
Inductive ASTNode : Type :=
| nil_node
| node (id : nat).

Record Parser : Type := mkParser {
  astQueue : list ASTNode;
  input : GoString.t;
  start : Z;
  pos : Z;
  width : Z;
  line : Z;
  linepos : Z;
  linePrev : Z;
  lineposPrev : Z;
  err : option error;
  children : list (ASTNode * ASTNode)
}.

Definition set_astQueue (v : list ASTNode) (p : Parser) : Parser :=
  mkParser v (input p) (start p) (pos p) (width p) (line p) (linepos p)
           (linePrev p) (lineposPrev p) (err p) (children p).
Definition set_start (v : Z) (p : Parser) : Parser :=
  mkParser (astQueue p) (input p) v (pos p) (width p) (line p) (linepos p)
           (linePrev p) (lineposPrev p) (err p) (children p).
Definition set_pos (v : Z) (p : Parser) : Parser :=
  mkParser (astQueue p) (input p) (start p) v (width p) (line p) (linepos p)
           (linePrev p) (lineposPrev p) (err p) (children p).
Definition set_width (v : Z) (p : Parser) : Parser :=
  mkParser (astQueue p) (input p) (start p) (pos p) v (line p) (linepos p)
           (linePrev p) (lineposPrev p) (err p) (children p).
Definition set_line (v : Z) (p : Parser) : Parser :=
  mkParser (astQueue p) (input p) (start p) (pos p) (width p) v (linepos p)
           (linePrev p) (lineposPrev p) (err p) (children p).
Definition set_linepos (v : Z) (p : Parser) : Parser :=
  mkParser (astQueue p) (input p) (start p) (pos p) (width p) (line p) v
           (linePrev p) (lineposPrev p) (err p) (children p).
Definition set_linePrev (v : Z) (p : Parser) : Parser :=
  mkParser (astQueue p) (input p) (start p) (pos p) (width p) (line p)
           (linepos p) v (lineposPrev p) (err p) (children p).
Definition set_lineposPrev (v : Z) (p : Parser) : Parser :=
  mkParser (astQueue p) (input p) (start p) (pos p) (width p) (line p)
           (linepos p) (linePrev p) v (err p) (children p).
Definition set_err (v : option error) (p : Parser) : Parser :=
  mkParser (astQueue p) (input p) (start p) (pos p) (width p) (line p)
           (linepos p) (linePrev p) (lineposPrev p) v (children p).
Definition set_children (v : list (ASTNode * ASTNode)) (p : Parser) : Parser :=
  mkParser (astQueue p) (input p) (start p) (pos p) (width p) (line p)
           (linepos p) (linePrev p) (lineposPrev p) (err p) v.

(** *** Methods as state transformers *)

(** The outcome of a call on a parser: a normal return with the parser as
    the call left it, a run-time panic with the parser as it was when the
    panic was raised, or a loop that is still running when the budget of
    iterations given to the model is used up. *)
Inductive result (A : Type) : Type :=
| Ok (a : A) (p : Parser)
| Panic (p : Parser)
| Timeout.

Arguments Ok {A} a p.
Arguments Panic {A} p.
Arguments Timeout {A}.

Definition M (A : Type) : Type := Parser -> result A.

Definition ret {A : Type} (a : A) : M A := fun p => Ok a p.

Definition bind {A B : Type} (m : M A) (k : A -> M B) : M B :=
  fun p =>
    match m p with
    | Ok a p' => k a p'
    | Panic p' => Panic p'
    | Timeout => Timeout
    end.

Declare Scope go_scope.
Delimit Scope go_scope with go.
Notation "x <- m ;; k" := (bind m (fun x => k))
  (at level 61, m at next level, right associativity) : go_scope.
Notation "m ;; k" := (bind m (fun _ => k))
  (at level 61, right associativity) : go_scope.
Local Open Scope go_scope.

Definition get {A : Type} (f : Parser -> A) : M A := fun p => Ok (f p) p.
Definition modify (f : Parser -> Parser) : M unit := fun p => Ok tt (f p).
Definition panic {A : Type} : M A := fun p => Panic p.
Definition timeout {A : Type} : M A := fun _ => Timeout.

(** A slice or index expression: its value, or a panic. *)
Definition checked {A : Type} (o : option A) : M A :=
  match o with
  | Some a => ret a
  | None => panic
  end.

(** [func (p *Parser) QueueLen() int] *)
Definition QueueLen (p : Parser) : Z := Z.of_nat (List.length (astQueue p)).

(** [func New(input string, root ASTNode) *Parser] *)
Definition New (input : GoString.t) (root : ASTNode) : Parser :=
  mkParser [root] input 0 0 0 0 0 0 0 None [].

(** [func (p *Parser) Root() ASTNode]: [p.astQueue[0]]. *)
Definition Root : M ASTNode :=
  q <- get astQueue ;; checked (nth_error q 0).

(** [func (p *Parser) currentNode() ASTNode]:
    [p.astQueue[len(p.astQueue)-1]]. *)
Definition currentNode : M ASTNode :=
  q <- get astQueue ;; checked (nth_error q (List.length q - 1)).

(** The interface call [parent.AddChild(n)]: a method call on the nil
    interface value panics; on an object the call is recorded. *)
Definition AddChild (parent n : ASTNode) : M unit :=
  match parent with
  | nil_node => panic
  | node _ => modify (fun p => set_children (children p ++ [(parent, n)]) p)
  end.

(** [func (p *Parser) AddNode(n ASTNode)] *)
Definition AddNode (n : ASTNode) : M unit :=
  cur <- currentNode ;;
  AddChild cur n ;;
  modify (fun p => set_astQueue (astQueue p ++ [n]) p).

(** [func (p *Parser) PopNode()] *)
Definition PopNode : M unit :=
  n <- get QueueLen ;;
  if n <? 2 then ret tt
  else modify (fun p => set_astQueue (firstn (List.length (astQueue p) - 1) (astQueue p)) p).

(** [func (p *Parser) HasError() bool] *)
Definition HasError (p : Parser) : bool := negb (is_nil (err p)).

(** [func (p *Parser) IsEOF() bool] *)
Definition IsEOF (p : Parser) : bool := is_ErrEOF (err p).

(** [func (p *Parser) Next() (rune_ rune)] *)
Definition Next : M Z :=
  fun p =>
    if pos p >=? len (input p) then
      Ok EOF (set_err (Some ErrEOF) (set_width 0 p))
    else
      match slice_from (input p) (pos p) with
      | None => Panic p
      | Some rest =>
          let (rune_, w) := utf8.DecodeRuneInString rest in
          let p := set_width w p in
          let p := set_pos (GoInt.add (pos p) (width p)) p in
          let p := set_linePrev (line p) p in
          let p := set_lineposPrev (linepos p) p in
          let p :=
            if rune_ =? 10 then
              set_linepos 0 (set_line (GoInt.add (line p) 1) p)
            else set_linepos (GoInt.add (linepos p) 1) p in
          Ok rune_ p
      end.

(** [func (p *Parser) Emit() string] *)
Definition Emit : M GoString.t :=
  fun p =>
    match slice (input p) (start p) (pos p) with
    | None => Panic p
    | Some s => Ok s (set_start (pos p) p)
    end.

(** [func (p *Parser) Ignore()] *)
Definition Ignore : M unit := modify (fun p => set_start (pos p) p).

(** [func (p *Parser) Backup()]: the rune it inspects is the one at the
    position [Next] has moved to, since [p.pos] is lowered last. *)
Definition Backup : M unit :=
  fun p =>
    match slice_from (input p) (pos p) with
    | None => Panic p
    | Some rest =>
        let (rune_, _) := utf8.DecodeRuneInString rest in
        let p := if rune_ =? 10 then set_line (GoInt.sub (line p) 1) p else p in
        let p := set_linepos (lineposPrev p) p in
        let p := set_pos (GoInt.sub (pos p) (width p)) p in
        Ok tt p
    end.

(** [func (p *Parser) Peek() rune] *)
Definition Peek : M Z :=
  r <- Next ;;
  Backup ;;
  ret r.

(** [func (p *Parser) Accept(valid string) bool] *)
Definition Accept (valid : GoString.t) : M bool :=
  r <- Next ;;
  if strings.IndexRune valid r >=? 0 then ret true
  else Backup ;; ret false.

(** [for strings.IndexRune(valid, p.Next()) >= 0 { }] with at most [fuel]
    evaluations of the condition. *)
Fixpoint AcceptRun_loop (fuel : nat) (valid : GoString.t) : M unit :=
  match fuel with
  | O => timeout
  | S fuel' =>
      r <- Next ;;
      if strings.IndexRune valid r >=? 0 then AcceptRun_loop fuel' valid
      else ret tt
  end.

(** [func (p *Parser) AcceptRun(valid string)] *)
Definition AcceptRun (fuel : nat) (valid : GoString.t) : M unit :=
  AcceptRun_loop fuel valid ;;
  Backup.

(** [for strings.IndexRune(stopper, p.Next()) == -1 { }] with at most [fuel]
    evaluations of the condition. *)
Fixpoint ForwardUntil_loop (fuel : nat) (stopper : GoString.t) : M unit :=
  match fuel with
  | O => timeout
  | S fuel' =>
      r <- Next ;;
      if strings.IndexRune stopper r =? -1 then ForwardUntil_loop fuel' stopper
      else ret tt
  end.

(** [func (p *Parser) ForwardUntil(stopper string)] *)
Definition ForwardUntil (fuel : nat) (stopper : GoString.t) : M unit :=
  ForwardUntil_loop fuel stopper ;;
  Backup.

(** The format of the diagnostic. *)
Definition Errorf_format : GoString.t :=
  lit "Error in line %d at position %d: %s
context:
%s
".

(** [func (p *Parser) Errorf(format string, args ...interface{})]; [msg] is
    the value of the inner [fmt.Sprintf(format, args...)], which does not
    depend on the parser. The outer format lies in the fragment [Sprintf]
    describes, so its [None] branch is never taken (lemma
    [Sprintf_Errorf_format]). *)
Definition Errorf (msg : GoString.t) : M unit :=
  fun p =>
    let start_ := GoInt.sub (pos p) 5 in
    let start_ := if start_ <? 0 then 0 else start_ in
    let end_ := GoInt.add (pos p) 5 in
    let end_ := if end_ >? len (input p) then len (input p) else end_ in
    match slice (input p) start_ end_ with
    | None => Panic p
    | Some window =>
        match
          fmt.Sprintf Errorf_format
            [fmt.ArgInt (GoInt.add (line p) 1);
             fmt.ArgInt (GoInt.add (linepos p) 1);
             fmt.ArgStr msg;
             fmt.ArgStr window]
        with
        | Some text => Ok tt (set_err (Some (errors.New text)) p)
        | None => Panic p
        end
    end.

(** [type State func(p *Parser) (next State)]; [None] is the nil function. *)
#[local] Unset Elimination Schemes.
Inductive State : Type :=
| StateFn (fn : Parser -> result (option State)).
#[local] Set Elimination Schemes.

(** [for p.err == nil { fn = fn(p); if fn == nil { break } }] with at most
    [fuel] calls of a state. *)
Fixpoint Run_loop (fuel : nat) (fn : option State) : M (option State) :=
  fun p =>
    if is_nil (err p) then
      match fuel with
      | O => Timeout
      | S fuel' =>
          match fn with
          | None => Panic p
          | Some (StateFn f) =>
              match f p with
              | Ok None p' => Ok None p'
              | Ok (Some next) p' => Run_loop fuel' (Some next) p'
              | Panic p' => Panic p'
              | Timeout => Timeout
              end
          end
      end
    else Ok fn p.

(** [func (p *Parser) Run(fn State) (err error)]: the named result [err] is
    nil on entry and no statement of the body assigns to it. *)
Definition Run (fuel : nat) (fn : option State) : M (option error) :=
  let err_ : option error := None in
  Run_loop fuel fn ;;
  e <- get err ;;
  if is_ErrEOF e then ret None
  else ret err_.

(** ** Sequences of calls *)

(** The public operations of the cursor. *)
Inductive op : Type :=
| OpNext
| OpBackup
| OpPeek
| OpAccept (valid : GoString.t)
| OpAcceptRun (valid : GoString.t)
| OpForwardUntil (stopper : GoString.t)
| OpEmit
| OpIgnore.

Definition run_op (fuel : nat) (o : op) : M unit :=
  match o with
  | OpNext => Next ;; ret tt
  | OpBackup => Backup
  | OpPeek => Peek ;; ret tt
  | OpAccept valid => Accept valid ;; ret tt
  | OpAcceptRun valid => AcceptRun fuel valid
  | OpForwardUntil stopper => ForwardUntil fuel stopper
  | OpEmit => Emit ;; ret tt
  | OpIgnore => Ignore
  end.

Fixpoint run_ops (fuel : nat) (ops : list op) : M unit :=
  match ops with
  | [] => ret tt
  | o :: ops' => run_op fuel o ;; run_ops fuel ops'
  end.

(** The invariant of the cursor named by the specification. *)
Definition cursor_inv (p : Parser) : Prop :=
  start p <= pos p <= len (input p).

(** What the operations maintain besides: offsets are not negative, the
    stored width is not negative, and the input is a Go string, whose length
    is an [int]. *)
Definition cursor_ok (p : Parser) : Prop :=
  0 <= start p /\ start p <= pos p /\ pos p <= len (input p) /\
  len (input p) <= GoInt.int_max /\ 0 <= width p.

(** [Backup] is called within its contract, as far as the offsets go: the
    rune the stored width belongs to lies inside the current token. *)
Definition Backup_ready (p : Parser) : bool := start p + width p <=? pos p.

(** Every [Backup] of the sequence is called in a state that is ready for
    it. *)
Fixpoint guarded (fuel : nat) (ops : list op) (p : Parser) : bool :=
  match ops with
  | [] => true
  | o :: ops' =>
      match o with OpBackup => Backup_ready p | _ => true end &&
      match run_op fuel o p with
      | Ok _ p' => guarded fuel ops' p'
      | _ => true
      end
  end.

(** [n] calls of [Next] in a row, with the runes they return. *)
Fixpoint Next_times (n : nat) : M (list Z) :=
  match n with
  | O => ret []
  | S n' => r <- Next ;; rs <- Next_times n' ;; ret (r :: rs)
  end.

(** The operations of the builder stack. *)
Inductive stack_op : Type :=
| OpAddNode (n : ASTNode)
| OpPopNode.

Definition run_stack_op (o : stack_op) : M unit :=
  match o with
  | OpAddNode n => AddNode n
  | OpPopNode => PopNode
  end.

Fixpoint run_stack (ops : list stack_op) : M unit :=
  match ops with
  | [] => ret tt
  | o :: ops' => run_stack_op o ;; run_stack ops'
  end.

(** A state that records a diagnostic and stops the machine:
    [func(p *Parser) State { p.Errorf("boom"); return nil }]. *)
Definition failing_state : State :=
  StateFn (Errorf (lit "boom") ;; ret None).

(** The bytes of U+220E in UTF-8. *)
Definition EOF_bytes : GoString.t := [xe2; x88; x8e].

(** Bounded universal quantification over [lo], [lo+1], ..., [lo+n-1]. *)
Fixpoint all_from (n : nat) (lo : Z) (f : Z -> bool) : bool :=
  match n with
  | O => true
  | S k => f lo && all_from k (lo + 1) f
  end.

(** A call does not panic, and if it returns, its result and the parser it
    leaves satisfy [P]; a loop that is still running has not broken [P]. *)
Definition safely {A : Type} (P : A -> Parser -> Prop) (r : result A) : Prop :=
  match r with
  | Ok a p' => P a p'
  | Panic _ => False
  | Timeout => True
  end.

(** After a read the parser is ready for one [Backup]. *)
Definition after_Next (p : Parser) : Prop :=
  cursor_ok p /\ Backup_ready p = true.

(** The code points the decoder assembles from a sequence of two, of three
    and of four bytes. *)
Definition rune2 (s0 b1 : Z) : Z :=
  Z.lor (Z.shiftl (Z.land s0 utf8.mask2) 6) (Z.land b1 utf8.maskx).

Definition rune3 (s0 b1 b2 : Z) : Z :=
  Z.lor (Z.lor (Z.shiftl (Z.land s0 utf8.mask3) 12)
               (Z.shiftl (Z.land b1 utf8.maskx) 6))
        (Z.land b2 utf8.maskx).

Definition rune4 (s0 b1 b2 b3 : Z) : Z :=
  Z.lor (Z.lor (Z.lor (Z.shiftl (Z.land s0 utf8.mask4) 18)
                      (Z.shiftl (Z.land b1 utf8.maskx) 12))
               (Z.shiftl (Z.land b2 utf8.maskx) 6))
        (Z.land b3 utf8.maskx).

(** The number of bytes before the first rune of [s] that belongs to the
    stop set, looking at no more than [fuel] runes; [None] when the runes
    looked at hold no such rune. *)
Fixpoint first_stop (fuel : nat) (stopper s : GoString.t) : option Z :=
  match fuel with
  | O => None
  | S fuel' =>
      if len s <? 1 then None
      else
        let (r, w) := utf8.DecodeRuneInString s in
        if strings.IndexRune stopper r =? -1 then
          option_map (Z.add w) (first_stop fuel' stopper (skipn (Z.to_nat w) s))
        else Some 0
  end.

(** A state that takes a run of digits as a token and stops the machine:
    [func(p *Parser) State { p.AcceptRun("0123456789"); p.Emit(); return nil }]. *)
Definition digits_state (fuel : nat) : State :=
  StateFn (AcceptRun fuel (lit "0123456789") ;; Emit ;; ret None).

(** The number of bytes of the longest run of runes at the head of [s] that
    all belong to [valid], looking at no more than [fuel] runes. *)
Fixpoint accept_prefix (fuel : nat) (valid s : GoString.t) : Z :=
  match fuel with
  | O => 0
  | S fuel' =>
      if len s <? 1 then 0
      else
        let (r, w) := utf8.DecodeRuneInString s in
        if strings.IndexRune valid r >=? 0 then
          w + accept_prefix fuel' valid (skipn (Z.to_nat w) s)
        else 0
  end.

(** The number of newline runes among the runes [rs]. *)
Definition newlines (rs : list Z) : Z :=
  Z.of_nat (count_occ Z.eq_dec rs 10).

(** The pairs of neighbours of the stack, the lower node first. *)
Fixpoint stack_edges (q : list ASTNode) : list (ASTNode * ASTNode) :=
  match q with
  | a :: tl =>
      match tl with
      | b :: _ => (a, b) :: stack_edges tl
      | [] => []
      end
  | [] => []
  end.

(** What a sequence of reads keeps true of the line and the column. *)
Definition lines_ok (p : Parser) : Prop :=
  cursor_ok p /\ 0 <= line p /\ 0 <= linepos p /\
  line p + linepos p <= pos p.

(** ** The first revision of the file

    The file holds an earlier revision of the package before the one the
    parser above follows. Its [Parser] has no [err] field: [Next] records
    nothing at the end of the input, [Errorf] returns the diagnostic and a
    state returns its successor together with an error, which [Run] hands
    on. The other methods read the same in both revisions. The record of the
    second revision is reused; its [err] field is never touched here. *)

Module V1.

(** [func (p *Parser) Next() (rune_ rune)] *)
Definition Next : M Z :=
  fun p =>
    if pos p >=? len (input p) then
      Ok EOF (set_width 0 p)
    else
      match slice_from (input p) (pos p) with
      | None => Panic p
      | Some rest =>
          let (rune_, w) := utf8.DecodeRuneInString rest in
          let p := set_width w p in
          let p := set_pos (GoInt.add (pos p) (width p)) p in
          let p := set_linePrev (line p) p in
          let p := set_lineposPrev (linepos p) p in
          let p :=
            if rune_ =? 10 then
              set_linepos 0 (set_line (GoInt.add (line p) 1) p)
            else set_linepos (GoInt.add (linepos p) 1) p in
          Ok rune_ p
      end.

(** [func (p *Parser) Errorf(format string, args ...interface{}) error];
    [msg] is the value of the inner [fmt.Sprintf(format, args...)]. *)
Definition Errorf (msg : GoString.t) : M error :=
  fun p =>
    let start_ := GoInt.sub (pos p) 5 in
    let start_ := if start_ <? 0 then 0 else start_ in
    let end_ := GoInt.add (pos p) 5 in
    let end_ := if end_ >? len (input p) then len (input p) else end_ in
    match slice (input p) start_ end_ with
    | None => Panic p
    | Some window =>
        match
          fmt.Sprintf Errorf_format
            [fmt.ArgInt (GoInt.add (line p) 1);
             fmt.ArgInt (GoInt.add (linepos p) 1);
             fmt.ArgStr msg;
             fmt.ArgStr window]
        with
        | Some text => Ok (errors.New text) p
        | None => Panic p
        end
    end.

(** [type State func(p *Parser) (next State, err error)] *)
#[local] Unset Elimination Schemes.
Inductive State : Type :=
| StateFn (fn : Parser -> result (option State * option error)).
#[local] Set Elimination Schemes.

(** [for err == nil { fn, err = fn(p) }] with at most [fuel] calls of a
    state; [err_] is the error so far. *)
Fixpoint Run_loop (fuel : nat) (fn : option State) (err_ : option error)
  : M (option State * option error) :=
  fun p =>
    if is_nil err_ then
      match fuel with
      | O => Timeout
      | S fuel' =>
          match fn with
          | None => Panic p
          | Some (StateFn f) =>
              match f p with
              | Ok (next, e) p' => Run_loop fuel' next e p'
              | Panic p' => Panic p'
              | Timeout => Timeout
              end
          end
      end
    else Ok (fn, err_) p.

(** [func (p *Parser) Run(fn State) (err error)] *)
Definition Run (fuel : nat) (fn : option State) : M (option error) :=
  r <- Run_loop fuel fn None ;;
  if is_ErrEOF (snd r) then ret None
  else ret (snd r).

(** A state that fails with a diagnostic:
    [func(p *Parser) (State, error) { return nil, p.Errorf(msg) }]. *)
Definition failing (msg : GoString.t) : State :=
  StateFn (e <- Errorf msg ;; ret (None, Some e)).

End V1.

(** The newline character as a string. *)
Definition nl : GoString.t := [x0a].

(** * Properties *)

(** ** Arithmetic of [int] *)

Lemma wrap_id (z : Z) : GoInt.in_int z -> GoInt.wrap z = z.
Proof.
  unfold GoInt.in_int, GoInt.int_min, GoInt.int_max, GoInt.wrap.
  intros H. rewrite Z.mod_small; lia.
Qed.

Lemma add_id (a b : Z) : GoInt.in_int (a + b) -> GoInt.add a b = a + b.
Proof. apply wrap_id. Qed.

Lemma sub_id (a b : Z) : GoInt.in_int (a - b) -> GoInt.sub a b = a - b.
Proof. apply wrap_id. Qed.

Lemma len_nonneg (s : GoString.t) : 0 <= len s.
Proof. unfold len. lia. Qed.

Lemma len_skipn (s : GoString.t) (k : Z) :
  0 <= k <= len s -> len (skipn (Z.to_nat k) s) = len s - k.
Proof.
  unfold len. intros H. rewrite length_skipn. lia.
Qed.

Lemma slice_from_ok (s : GoString.t) (k : Z) :
  0 <= k <= len s -> slice_from s k = Some (skipn (Z.to_nat k) s).
Proof.
  intros [H1 H2]. unfold slice_from.
  apply Z.leb_le in H1, H2. rewrite H1, H2. reflexivity.
Qed.

Lemma slice_from_none (s : GoString.t) (k : Z) :
  len s < k -> slice_from s k = None.
Proof.
  intros H. unfold slice_from.
  apply Z.leb_gt in H. rewrite H, andb_false_r. reflexivity.
Qed.

(** ** The driver *)

(** Whatever the states do, a [Run] that returns hands back nil: its result
    variable is never assigned. *)
Lemma Run_result_nil (fuel : nat) (fn : option State) (p p' : Parser)
  (e : option error) :
  Run fuel fn p = Ok e p' -> e = None.
Proof.
  unfold Run, bind, get, ret.
  destruct (Run_loop fuel fn p) as [fn' q| |]; try discriminate.
  destruct (is_ErrEOF (err q)); intros H; inversion H; reflexivity.
Qed.

(** [Run] maps the end-of-input condition to a nil result. *)
Lemma Run_at_ErrEOF (fuel : nat) (fn : option State) (p : Parser) :
  err p = Some ErrEOF -> Run fuel fn p = Ok None p.
Proof.
  intros H. unfold Run, bind, get, ret.
  destruct fuel; cbn [Run_loop]; rewrite H; cbn; rewrite H; reflexivity.
Qed.

(** C1. On a state that records a diagnostic with [Errorf] and stops, the
    loop of [Run] ends with that diagnostic on the parser, and [Run] still
    returns nil: the diagnostic does not reach the caller. *)
Theorem Run_drops_diagnostic (fuel : nat) :
  exists p',
    Run (S fuel) (Some failing_state) (New (lit "x") (node 0)) = Ok None p' /\
    err p' =
      Some (errors.New (lit "Error in line 1 at position 1: boom
context:
x
")) /\
    HasError p' = true /\ IsEOF p' = false.
Proof.
  eexists. split; [reflexivity|]. repeat split.
Qed.

(** ** Reads at the end of the input *)

Lemma Next_at_end (p : Parser) :
  len (input p) <= pos p ->
  Next p = Ok EOF (set_err (Some ErrEOF) (set_width 0 p)).
Proof.
  intros H. unfold Next.
  destruct (pos p >=? len (input p)) eqn:E; [reflexivity|].
  rewrite Z.geb_leb in E. apply Z.leb_gt in E. lia.
Qed.

Lemma Next_times_at_end (n : nat) (p : Parser) :
  len (input p) <= pos p ->
  exists p',
    Next_times n p = Ok (repeat EOF n) p' /\
    pos p' = pos p /\ input p' = input p.
Proof.
  revert p. induction n as [|n IH]; intros p H.
  - exists p. repeat split.
  - cbn [Next_times repeat]. unfold bind at 1.
    rewrite (Next_at_end p H).
    destruct (IH (set_err (Some ErrEOF) (set_width 0 p)) H)
      as (p' & Hrun & Hpos & Hin).
    exists p'. unfold bind, ret. rewrite Hrun. repeat split; assumption.
Qed.

(** C7. A [Next] called with [pos] at or past the end of the input returns
    the sentinel [EOF], records [ErrEOF] (the end-of-input condition, which
    [IsEOF] reports and which [Run] turns into a nil result) and leaves
    [pos] where it was; hence any number of further calls returns normally,
    every one with the sentinel, and [pos] never moves. *)
Theorem Next_past_end (p : Parser) (H : len (input p) <= pos p) :
  (exists p',
      Next p = Ok EOF p' /\ pos p' = pos p /\ input p' = input p /\
      err p' = Some ErrEOF /\ IsEOF p' = true /\
      forall fuel fn, Run fuel fn p' = Ok None p') /\
  (forall n : nat,
      exists p',
        Next_times n p = Ok (repeat EOF n) p' /\
        pos p' = pos p /\ input p' = input p).
Proof.
  split.
  - exists (set_err (Some ErrEOF) (set_width 0 p)).
    rewrite (Next_at_end p H). repeat split.
    intros fuel fn. apply Run_at_ErrEOF. reflexivity.
  - intros n. apply Next_times_at_end. exact H.
Qed.

Lemma Next_past_end_witness :
  let p := mkParser [node 0] (lit "ab") 0 2 1 0 2 0 1 None [] in
  len (input p) <= pos p /\
  exists p',
    Next_times 3 p = Ok [EOF; EOF; EOF] p' /\
    pos p' = pos p /\ input p' = input p.
Proof.
  intros p.
  assert (H : len (input p) <= pos p) by (vm_compute; discriminate).
  split; [exact H|].
  exact (proj2 (Next_past_end p H) 3%nat).
Defined.

(** C10. After a [Next] called with [pos] at or past the end of the input,
    which returns the sentinel and stores the width 0, the following
    [Backup] leaves [pos] where it was. It returns normally when [pos] is
    the length of the input; when [pos] lies strictly past the end its slice
    expression panics, before [pos] is touched. *)
Theorem Backup_after_Next_at_end (p : Parser)
  (Hend : len (input p) <= pos p) (Hint : GoInt.in_int (pos p)) :
  exists q,
    Next p = Ok EOF q /\ width q = 0 /\
    match Backup q with
    | Ok _ q' => pos q' = pos p /\ pos p = len (input p)
    | Panic q' => pos q' = pos p /\ len (input p) < pos p
    | Timeout => False
    end.
Proof.
  exists (set_err (Some ErrEOF) (set_width 0 p)).
  rewrite (Next_at_end p Hend). split; [reflexivity|]. split; [reflexivity|].
  unfold Backup. cbn [input pos set_err set_width].
  destruct (Z.eq_dec (pos p) (len (input p))) as [E|E].
  - rewrite slice_from_ok by (pose proof (len_nonneg (input p)); lia).
    destruct (utf8.DecodeRuneInString _) as [r w].
    destruct (r =? 10); cbn; rewrite sub_id; rewrite ?Z.sub_0_r;
      auto; split; auto.
  - rewrite slice_from_none by lia. cbn. split; [reflexivity | lia].
Qed.

Lemma Backup_after_Next_at_end_witness :
  let p := mkParser [node 0] (lit "ab") 0 2 1 0 2 0 1 None [] in
  exists q q',
    Next p = Ok EOF q /\ Backup q = Ok tt q' /\ pos q' = 2.
Proof.
  intros p.
  assert (Hend : len (input p) <= pos p) by (vm_compute; discriminate).
  assert (Hint : GoInt.in_int (pos p)) by (vm_compute; split; discriminate).
  destruct (Backup_after_Next_at_end p Hend Hint) as (q & Hn & _ & Hb).
  exists q.
  destruct (Backup q) as [[] q'| q' |] eqn:E.
  - exists q'. split; [exact Hn|]. split; [reflexivity | exact (proj1 Hb)].
  - exfalso. destruct Hb as [_ Hb]. vm_compute in Hb. discriminate Hb.
  - destruct Hb.
Defined.

(** ** [ForwardUntil] *)

Lemma ForwardUntil_loop_step (fuel : nat) (stopper : GoString.t)
  (p p' : Parser) (r : Z) :
  Next p = Ok r p' ->
  strings.IndexRune stopper r = -1 ->
  ForwardUntil_loop (S fuel) stopper p = ForwardUntil_loop fuel stopper p'.
Proof.
  intros HN HI. cbn [ForwardUntil_loop]. unfold bind at 1.
  rewrite HN, HI. reflexivity.
Qed.

(** At the end of the input the loop of [ForwardUntil] reads the sentinel
    again and again: it stops only if the sentinel is a stopper. *)
Lemma ForwardUntil_loop_at_end (fuel : nat) (stopper : GoString.t)
  (p : Parser) :
  len (input p) <= pos p ->
  strings.IndexRune stopper EOF = -1 ->
  ForwardUntil_loop fuel stopper p = Timeout.
Proof.
  intros H HI. revert p H. induction fuel as [|fuel IH]; intros p H.
  - reflexivity.
  - rewrite (ForwardUntil_loop_step fuel stopper p _ EOF (Next_at_end p H) HI).
    apply IH. exact H.
Qed.

(** C2. On the input "abc" with the stop set "x" the loop of [ForwardUntil]
    is still running after any number of iterations: no member of the stop
    set occurs, the input ends, and the call does not return. *)
Theorem ForwardUntil_runs_forever (fuel : nat) :
  ForwardUntil fuel (lit "x") (New (lit "abc") (node 0)) = Timeout.
Proof.
  unfold ForwardUntil, bind.
  destruct fuel as [|[|[|fuel]]]; try reflexivity.
  do 3 (erewrite ForwardUntil_loop_step by (vm_compute; reflexivity)).
  rewrite ForwardUntil_loop_at_end; [reflexivity | | reflexivity].
  vm_compute. discriminate.
Qed.

(** ** [Backup] and the line and column *)

(** C3. [Peek] on a fresh parser over "a" followed by a newline returns 'a'
    and leaves the line at -1 instead of 0: [Backup] tests the rune after
    the one it undoes. After the only rune of "a" has been read, [Peek] at
    the end of the input moves the column from 1 back to 0: [Backup]
    restores a snapshot that the read at the end did not take. *)
Theorem Peek_moves_line_and_column :
  (exists p',
      Peek (New (lit "a" ++ nl) (node 0)) = Ok 97 p' /\
      pos p' = 0 /\ linepos p' = 0 /\ line p' = -1) /\
  (exists p1 p2,
      Next (New (lit "a") (node 0)) = Ok 97 p1 /\
      pos p1 = 1 /\ line p1 = 0 /\ linepos p1 = 1 /\
      Peek p1 = Ok EOF p2 /\
      pos p2 = 1 /\ line p2 = 0 /\ linepos p2 = 0).
Proof.
  split.
  - eexists. split; [vm_compute; reflexivity|]. repeat split.
  - eexists. eexists. split; [vm_compute; reflexivity|].
    do 3 (split; [reflexivity|]).
    split; [vm_compute; reflexivity|]. repeat split.
Qed.

(** C4. [Accept] with the set "x" on a fresh parser over "a" followed by a
    newline returns false and leaves the line at -1 instead of 0; called at
    the end of the input "a", after its only rune has been read, it returns
    false and moves the column from 1 back to 0. *)
Theorem Accept_false_moves_line_and_column :
  (exists p',
      Accept (lit "x") (New (lit "a" ++ nl) (node 0)) = Ok false p' /\
      pos p' = 0 /\ linepos p' = 0 /\ line p' = -1) /\
  (exists p1 p2,
      Next (New (lit "a") (node 0)) = Ok 97 p1 /\
      pos p1 = 1 /\ line p1 = 0 /\ linepos p1 = 1 /\
      Accept (lit "x") p1 = Ok false p2 /\
      pos p2 = 1 /\ line p2 = 0 /\ linepos p2 = 0).
Proof.
  split.
  - eexists. split; [vm_compute; reflexivity|]. repeat split.
  - eexists. eexists. split; [vm_compute; reflexivity|].
    do 3 (split; [reflexivity|]).
    split; [vm_compute; reflexivity|]. repeat split.
Qed.

(** ** The builder stack *)

Lemma currentNode_ok (p : Parser) (r : ASTNode) (tl : list ASTNode) :
  astQueue p = r :: tl ->
  exists cur, currentNode p = Ok cur p /\ In cur (r :: tl).
Proof.
  intros H. unfold currentNode, bind, get, checked. rewrite H.
  destruct (nth_error (r :: tl) (List.length (r :: tl) - 1)) as [cur|] eqn:E.
  - exists cur. split; [reflexivity|]. apply (nth_error_In _ _ E).
  - apply nth_error_None in E. cbn [List.length] in E. lia.
Qed.

(** [AddNode] returns with the node pushed, or panics on a nil current node
    and leaves the parser as it was. *)
Lemma AddNode_ok (n : ASTNode) (p : Parser) (r : ASTNode) (tl : list ASTNode) :
  astQueue p = r :: tl ->
  (exists p', AddNode n p = Ok tt p' /\ astQueue p' = r :: (tl ++ [n])) \/
  (AddNode n p = Panic p /\ In nil_node (r :: tl)).
Proof.
  intros H. destruct (currentNode_ok p r tl H) as (cur & Hc & Hin).
  destruct cur as [|id].
  - right. split; [|exact Hin].
    unfold AddNode, bind. rewrite Hc. reflexivity.
  - left. eexists. split.
    + unfold AddNode, bind. rewrite Hc. reflexivity.
    + cbn. rewrite H. reflexivity.
Qed.

Lemma PopNode_single (p : Parser) :
  QueueLen p = 1 -> PopNode p = Ok tt p.
Proof.
  intros H. unfold PopNode, bind, get. rewrite H. reflexivity.
Qed.

Lemma PopNode_ok (p : Parser) (r : ASTNode) (tl : list ASTNode) :
  astQueue p = r :: tl ->
  exists p', PopNode p = Ok tt p' /\
             astQueue p' = r :: firstn (List.length tl - 1) tl.
Proof.
  intros H. unfold PopNode, bind, get, QueueLen. rewrite H.
  destruct tl as [|x tl].
  - exists p. cbn. rewrite H. split; reflexivity.
  - cbn [List.length].
    replace (Z.of_nat (S (S (List.length tl))) <? 2) with false
      by (symmetry; apply Z.ltb_ge; lia).
    eexists. split; [reflexivity|]. cbn [modify astQueue set_astQueue].
    rewrite H. cbn [List.length]. rewrite !Nat.sub_1_r. reflexivity.
Qed.

Lemma In_firstn {A : Type} (n : nat) (l : list A) (x : A) :
  In x (firstn n l) -> In x l.
Proof.
  revert l. induction n as [|n IH]; intros [|y l] H; try contradiction.
  cbn [firstn] in H. destruct H as [H|H]; [left; exact H|].
  right. apply IH. exact H.
Qed.

(** What holds of the stack of a parser made with the root [r]. *)
Lemma rooted_stack (p : Parser) (r : ASTNode) (tl : list ASTNode) :
  astQueue p = r :: tl ->
  astQueue p <> [] /\ 1 <= QueueLen p /\ Root p = Ok r p /\
  (QueueLen p = 1 -> PopNode p = Ok tt p /\ QueueLen p = 1).
Proof.
  intros H.
  split; [rewrite H; discriminate|].
  split; [unfold QueueLen; rewrite H; cbn [List.length]; lia|].
  split; [unfold Root, bind, get; rewrite H; reflexivity|].
  intros H1. split; [apply PopNode_single; exact H1 | exact H1].
Qed.

Lemma run_stack_ok (ops : list stack_op) (p : Parser) (r : ASTNode)
  (tl : list ASTNode) :
  astQueue p = r :: tl ->
  match run_stack ops p with
  | Ok _ p' => exists tl', astQueue p' = r :: tl'
  | Panic p' =>
      (exists tl', astQueue p' = r :: tl') /\
      (In nil_node (r :: tl) \/ In (OpAddNode nil_node) ops)
  | Timeout => False
  end.
Proof.
  revert p tl. induction ops as [|o ops IH]; intros p tl H.
  - exists tl. exact H.
  - cbn [run_stack]. unfold bind at 1.
    destruct o as [n|]; cbn [run_stack_op].
    + destruct (AddNode_ok n p r tl H) as [(q & Hq & Hs)|[Hq Hin]];
        rewrite Hq.
      * specialize (IH q _ Hs).
        destruct (run_stack ops q) as [u p'|p'|]; [exact IH| |exact IH].
        destruct IH as [Hst [Hin|Hin]]; (split; [exact Hst|]).
        -- rewrite app_comm_cons in Hin. apply in_app_or in Hin.
           destruct Hin as [Hin|[<-|[]]]; [left; exact Hin|].
           right. left. reflexivity.
        -- right. right. exact Hin.
      * split; [exists tl; exact H | left; exact Hin].
    + destruct (PopNode_ok p r tl H) as (q & Hq & Hs). rewrite Hq.
      specialize (IH q _ Hs).
      destruct (run_stack ops q) as [u p'|p'|]; [exact IH| |exact IH].
      destruct IH as [Hst [Hin|Hin]]; (split; [exact Hst|]).
      * left. destruct Hin as [Hin|Hin]; [left; exact Hin|].
        right. apply (In_firstn _ _ _ Hin).
      * right. right. exact Hin.
Qed.

(** C8. On a parser made by [New] with the root [r], after every sequence of
    [AddNode] and [PopNode] calls the stack is not empty and its bottom
    element, the result of [Root], is [r]; where the stack has one element,
    [PopNode] changes nothing, so that the depth stays 1. The sequence
    returns unless a nil node is the current node of an [AddNode], which
    panics in the call of [AddChild] and leaves the stack as it was. *)
Theorem builder_stack_keeps_root (input0 : GoString.t) (r : ASTNode)
  (ops : list stack_op) :
  let rooted p' :=
    astQueue p' <> [] /\ 1 <= QueueLen p' /\ Root p' = Ok r p' /\
    (QueueLen p' = 1 -> PopNode p' = Ok tt p' /\ QueueLen p' = 1) in
  match run_stack ops (New input0 r) with
  | Ok _ p' => rooted p'
  | Panic p' => rooted p' /\ (r = nil_node \/ In (OpAddNode nil_node) ops)
  | Timeout => False
  end.
Proof.
  intros rooted.
  pose proof (run_stack_ok ops (New input0 r) r [] eq_refl) as H.
  destruct (run_stack ops (New input0 r)) as [u p'|p'|].
  - destruct H as [tl' H]. exact (rooted_stack p' r tl' H).
  - destruct H as [[tl' H] Hnil]. split; [exact (rooted_stack p' r tl' H)|].
    destruct Hnil as [[Hr|[]]|Hin]; [left; exact Hr | right; exact Hin].
  - exact H.
Qed.

Lemma builder_stack_keeps_root_witness :
  exists p',
    run_stack [OpAddNode (node 1); OpAddNode (node 2); OpPopNode; OpPopNode;
               OpPopNode] (New (lit "x") (node 0)) = Ok tt p' /\
    Root p' = Ok (node 0) p' /\ QueueLen p' = 1 /\ PopNode p' = Ok tt p'.
Proof.
  pose proof (builder_stack_keeps_root (lit "x") (node 0)
                [OpAddNode (node 1); OpAddNode (node 2); OpPopNode; OpPopNode;
                 OpPopNode]) as H.
  cbv zeta in H.
  destruct (run_stack _ _) as [[] p'|p'|] eqn:E.
  - destruct H as (_ & _ & Hroot & Hpop).
    exists p'. split; [reflexivity|]. split; [exact Hroot|].
    assert (H1 : QueueLen p' = 1).
    { vm_compute in E. injection E as <-. reflexivity. }
    split; [exact H1 | exact (proj1 (Hpop H1))].
  - exfalso. vm_compute in E. discriminate E.
  - destruct H.
Defined.

(** ** The diagnostic of [Errorf] *)

(** The format of the diagnostic lies in the fragment of [Sprintf] that the
    embedding describes. *)
Lemma Sprintf_Errorf_format (l c : Z) (msg window : GoString.t) :
  fmt.Sprintf Errorf_format
    [fmt.ArgInt l; fmt.ArgInt c; fmt.ArgStr msg; fmt.ArgStr window] =
  Some (lit "Error in line " ++ strconv.Itoa l ++
        lit " at position " ++ strconv.Itoa c ++
        lit ": " ++ msg ++ nl ++ lit "context:" ++ nl ++ window ++ nl).
Proof. reflexivity. Qed.

Lemma clamp_low (z : Z) : (if z <? 0 then 0 else z) = Z.max 0 z.
Proof. destruct (Z.ltb_spec z 0); lia. Qed.

Lemma clamp_high (z n : Z) : (if z >? n then n else z) = Z.min n z.
Proof. rewrite Z.gtb_ltb. destruct (Z.ltb_spec n z); lia. Qed.

(** C5. [Errorf] records the diagnostic whose text is "Error in line L at
    position C: " followed by the message, a newline, "context:", a
    newline, the window and a newline, where L is the line plus one, C the
    column plus one and the window the bytes of the input from [pos - 5] to
    [pos + 5], both clamped to the bounds of the input. *)
Theorem Errorf_text (p : Parser) (msg : GoString.t)
  (Hpos : 0 <= pos p <= len (input p))
  (Hend : GoInt.in_int (pos p + 5))
  (Hline : GoInt.in_int (line p + 1))
  (Hcol : GoInt.in_int (linepos p + 1)) :
  exists window,
    slice (input p) (Z.max 0 (pos p - 5)) (Z.min (len (input p)) (pos p + 5))
      = Some window /\
    Errorf msg p =
      Ok tt
         (set_err
            (Some (errors.New
                     (lit "Error in line " ++ strconv.Itoa (line p + 1) ++
                      lit " at position " ++ strconv.Itoa (linepos p + 1) ++
                      lit ": " ++ msg ++ nl ++
                      lit "context:" ++ nl ++ window ++ nl)))
            p).
Proof.
  unfold Errorf.
  rewrite sub_id by
    (unfold GoInt.in_int, GoInt.int_min, GoInt.int_max in *; lia).
  rewrite !add_id by assumption.
  rewrite clamp_low, clamp_high.
  destruct (slice (input p) (Z.max 0 (pos p - 5))
              (Z.min (len (input p)) (pos p + 5))) as [window|] eqn:E.
  - exists window. split; [reflexivity|].
    rewrite Sprintf_Errorf_format. reflexivity.
  - exfalso. unfold slice in E.
    replace (0 <=? Z.max 0 (pos p - 5)) with true in E
      by (symmetry; apply Z.leb_le; lia).
    replace (Z.max 0 (pos p - 5) <=? Z.min (len (input p)) (pos p + 5))
      with true in E by (symmetry; apply Z.leb_le; lia).
    replace (Z.min (len (input p)) (pos p + 5) <=? len (input p))
      with true in E by (symmetry; apply Z.leb_le; lia).
    discriminate E.
Qed.

(** The example of the specification: [Errorf("unexpected %s", "token")]
    after six reads of "hello world". *)
Lemma Errorf_text_witness :
  let p := mkParser [node 0] (lit "hello world") 0 6 1 0 6 0 5 None [] in
  (exists rs, Next_times 6 (New (lit "hello world") (node 0)) = Ok rs p) /\
  fmt.Sprintf (lit "unexpected %s") [fmt.ArgStr (lit "token")] =
    Some (lit "unexpected token") /\
  slice (lit "hello world") 1 11 = Some (lit "ello world") /\
  Errorf (lit "unexpected token") p =
    Ok tt
       (set_err
          (Some (errors.New
                   (lit "Error in line 1 at position 7: unexpected token" ++
                    nl ++ lit "context:" ++ nl ++ lit "ello world" ++ nl)))
          p).
Proof.
  intros p.
  split; [eexists; vm_compute; reflexivity|].
  split; [reflexivity|]. split; [reflexivity|].
  assert (Hpos : 0 <= pos p <= len (input p))
    by (vm_compute; split; discriminate).
  assert (Hend : GoInt.in_int (pos p + 5))
    by (vm_compute; split; discriminate).
  assert (Hline : GoInt.in_int (line p + 1))
    by (vm_compute; split; discriminate).
  assert (Hcol : GoInt.in_int (linepos p + 1))
    by (vm_compute; split; discriminate).
  destruct (Errorf_text p (lit "unexpected token") Hpos Hend Hline Hcol)
    as (window & Hw & He).
  vm_compute in Hw. injection Hw as <-. exact He.
Defined.

(** ** The decoder *)

Ltac zbool :=
  repeat match goal with
  | H : (_ >=? _) = _ |- _ => rewrite Z.geb_leb in H
  | H : (_ >? _) = _ |- _ => rewrite Z.gtb_ltb in H
  | H : (_ <? _) = true |- _ => apply Z.ltb_lt in H
  | H : (_ <? _) = false |- _ => apply Z.ltb_ge in H
  | H : (_ <=? _) = true |- _ => apply Z.leb_le in H
  | H : (_ <=? _) = false |- _ => apply Z.leb_gt in H
  | H : (_ =? _) = true |- _ => apply Z.eqb_eq in H
  | H : (_ =? _) = false |- _ => apply Z.eqb_neq in H
  | H : (_ || _) = false |- _ => apply orb_false_iff in H; destruct H
  | H : (_ && _) = true |- _ => apply andb_true_iff in H; destruct H
  end.

(** Projections of updated and of fresh parsers. *)
Ltac fields :=
  cbn [astQueue input start pos width line linepos linePrev lineposPrev err
       children set_astQueue set_start set_pos set_width set_line set_linepos
       set_linePrev set_lineposPrev set_err set_children New] in *.

Ltac split_ifs :=
  repeat match goal with
  | |- context [if ?c then _ else _] => destruct c eqn:?
  end.

Lemma first_size (b : Z) :
  (utf8.first b >=? utf8.as_) = false -> 2 <= Z.land (utf8.first b) 7 <= 4.
Proof.
  unfold utf8.first. split_ifs; vm_compute; intuition discriminate.
Qed.

(** On a string that is not empty the decoder consumes at least one byte and
    no more than the string holds. *)
Lemma DecodeRuneInString_width (s : GoString.t) :
  1 <= len s -> 1 <= snd (utf8.DecodeRuneInString s) <= len s.
Proof.
  intros Hs. unfold utf8.DecodeRuneInString.
  remember (utf8.first (at_ s 0)) as x eqn:Hx.
  destruct (len s <? 1) eqn:E0; [zbool; lia|].
  destruct (x >=? utf8.as_) eqn:E1; [cbn [snd]; lia|].
  assert (Hsz : 2 <= Z.land x 7 <= 4) by (subst x; apply first_size; exact E1).
  cbv zeta. split_ifs; cbn [snd]; zbool; lia.
Qed.

Lemma DecodeRuneInString_empty : utf8.DecodeRuneInString [] = (utf8.RuneError, 0).
Proof. reflexivity. Qed.

(** ** The invariant of the cursor *)

Lemma safely_bind {A B : Type} (P : A -> Parser -> Prop)
  (Q : B -> Parser -> Prop) (m : M A) (k : A -> M B) (p : Parser) :
  safely P (m p) ->
  (forall a p', P a p' -> safely Q (k a p')) ->
  safely Q (bind m k p).
Proof.
  unfold bind. destruct (m p) as [a p'| |]; cbn; auto.
Qed.

Lemma safely_weaken {A : Type} (P Q : A -> Parser -> Prop) (r : result A) :
  (forall a p', P a p' -> Q a p') -> safely P r -> safely Q r.
Proof. destruct r; cbn; auto. Qed.

Lemma cursor_ok_New (input0 : GoString.t) (root : ASTNode) :
  len input0 <= GoInt.int_max -> cursor_ok (New input0 root).
Proof.
  intros H. unfold cursor_ok. fields.
  pose proof (len_nonneg input0). lia.
Qed.

Lemma cursor_ok_inv (p : Parser) : cursor_ok p -> cursor_inv p.
Proof. unfold cursor_ok, cursor_inv. lia. Qed.

Lemma Next_ok (p : Parser) :
  cursor_ok p -> safely (fun _ p' => after_Next p') (Next p).
Proof.
  intros (H0 & H1 & H2 & H3 & H4). unfold Next.
  destruct (pos p >=? len (input p)) eqn:E.
  - cbn [safely]. unfold after_Next, cursor_ok, Backup_ready. fields.
    split; [lia|]. apply Z.leb_le. lia.
  - zbool. rewrite slice_from_ok by lia.
    pose proof (DecodeRuneInString_width (skipn (Z.to_nat (pos p)) (input p)))
      as Hw.
    rewrite len_skipn in Hw by lia.
    destruct (utf8.DecodeRuneInString _) as [r w]. cbn [snd] in Hw.
    specialize (Hw ltac:(lia)).
    assert (Hadd : GoInt.add (pos p) w = pos p + w).
    { apply add_id. unfold GoInt.in_int, GoInt.int_min, GoInt.int_max in *.
      lia. }
    destruct (r =? 10); cbn [safely];
      unfold after_Next, cursor_ok, Backup_ready; fields;
      rewrite Hadd; (split; [lia | apply Z.leb_le; lia]).
Qed.

Lemma Backup_ok (p : Parser) :
  after_Next p -> safely (fun _ p' => cursor_ok p') (Backup p).
Proof.
  intros [(H0 & H1 & H2 & H3 & H4) Hr]. unfold Backup_ready in Hr. zbool.
  unfold Backup. rewrite slice_from_ok by lia.
  destruct (utf8.DecodeRuneInString _) as [r w].
  assert (Hsub : GoInt.sub (pos p) (width p) = pos p - width p).
  { apply sub_id. unfold GoInt.in_int, GoInt.int_min, GoInt.int_max in *.
    lia. }
  destruct (r =? 10); cbn [safely]; unfold cursor_ok; fields;
    rewrite Hsub; lia.
Qed.

Lemma Peek_ok (p : Parser) :
  cursor_ok p -> safely (fun _ p' => cursor_ok p') (Peek p).
Proof.
  intros H. unfold Peek.
  eapply safely_bind; [apply Next_ok; exact H|].
  intros r p1 H1. eapply safely_bind; [apply Backup_ok; exact H1|].
  intros ? p2 H2. exact H2.
Qed.

Lemma Accept_ok (valid : GoString.t) (p : Parser) :
  cursor_ok p -> safely (fun _ p' => cursor_ok p') (Accept valid p).
Proof.
  intros H. unfold Accept.
  eapply safely_bind; [apply Next_ok; exact H|].
  intros r p1 H1. destruct (strings.IndexRune valid r >=? 0).
  - exact (proj1 H1).
  - eapply safely_bind; [apply Backup_ok; exact H1|].
    intros ? p2 H2. exact H2.
Qed.

Lemma AcceptRun_loop_ok (fuel : nat) (valid : GoString.t) (p : Parser) :
  cursor_ok p -> safely (fun _ p' => after_Next p') (AcceptRun_loop fuel valid p).
Proof.
  revert p. induction fuel as [|fuel IH]; intros p H; [exact I|].
  cbn [AcceptRun_loop].
  eapply safely_bind; [apply Next_ok; exact H|].
  intros r p1 H1. destruct (strings.IndexRune valid r >=? 0).
  - apply IH. exact (proj1 H1).
  - exact H1.
Qed.

Lemma AcceptRun_ok (fuel : nat) (valid : GoString.t) (p : Parser) :
  cursor_ok p -> safely (fun _ p' => cursor_ok p') (AcceptRun fuel valid p).
Proof.
  intros H. unfold AcceptRun.
  eapply safely_bind; [apply AcceptRun_loop_ok; exact H|].
  intros ? p1 H1. apply Backup_ok. exact H1.
Qed.

Lemma ForwardUntil_loop_ok (fuel : nat) (stopper : GoString.t) (p : Parser) :
  cursor_ok p ->
  safely (fun _ p' => after_Next p') (ForwardUntil_loop fuel stopper p).
Proof.
  revert p. induction fuel as [|fuel IH]; intros p H; [exact I|].
  cbn [ForwardUntil_loop].
  eapply safely_bind; [apply Next_ok; exact H|].
  intros r p1 H1. destruct (strings.IndexRune stopper r =? -1).
  - apply IH. exact (proj1 H1).
  - exact H1.
Qed.

Lemma ForwardUntil_ok (fuel : nat) (stopper : GoString.t) (p : Parser) :
  cursor_ok p -> safely (fun _ p' => cursor_ok p') (ForwardUntil fuel stopper p).
Proof.
  intros H. unfold ForwardUntil.
  eapply safely_bind; [apply ForwardUntil_loop_ok; exact H|].
  intros ? p1 H1. apply Backup_ok. exact H1.
Qed.

Lemma Emit_ok (p : Parser) :
  cursor_ok p -> safely (fun _ p' => cursor_ok p') (Emit p).
Proof.
  intros (H0 & H1 & H2 & H3 & H4). unfold Emit, slice.
  replace (0 <=? start p) with true by (symmetry; apply Z.leb_le; lia).
  replace (start p <=? pos p) with true by (symmetry; apply Z.leb_le; lia).
  replace (pos p <=? len (input p)) with true
    by (symmetry; apply Z.leb_le; lia).
  cbn [andb safely]. unfold cursor_ok. fields. lia.
Qed.

Lemma Ignore_ok (p : Parser) :
  cursor_ok p -> safely (fun _ p' => cursor_ok p') (Ignore p).
Proof.
  intros (H0 & H1 & H2 & H3 & H4). unfold Ignore, modify.
  cbn [safely]. unfold cursor_ok. fields. lia.
Qed.

Lemma run_op_ok (fuel : nat) (o : op) (p : Parser) :
  cursor_ok p ->
  match o with OpBackup => Backup_ready p | _ => true end = true ->
  safely (fun _ p' => cursor_ok p') (run_op fuel o p).
Proof.
  intros H Hg. destruct o; cbn [run_op].
  - eapply safely_bind; [apply Next_ok; exact H|].
    intros ? p1 H1. exact (proj1 H1).
  - apply Backup_ok. split; assumption.
  - eapply safely_bind; [apply Peek_ok; exact H|]. intros ? p1 H1. exact H1.
  - eapply safely_bind; [apply Accept_ok; exact H|]. intros ? p1 H1. exact H1.
  - apply AcceptRun_ok. exact H.
  - apply ForwardUntil_ok. exact H.
  - eapply safely_bind; [apply Emit_ok; exact H|]. intros ? p1 H1. exact H1.
  - apply Ignore_ok. exact H.
Qed.

Lemma run_ops_ok (fuel : nat) (ops : list op) (p : Parser) :
  cursor_ok p -> guarded fuel ops p = true ->
  safely (fun _ p' => cursor_ok p') (run_ops fuel ops p).
Proof.
  revert p. induction ops as [|o ops IH]; intros p H Hg.
  - exact H.
  - cbn [run_ops guarded] in *. apply andb_true_iff in Hg.
    destruct Hg as [Hg1 Hg2].
    pose proof (run_op_ok fuel o p H Hg1) as Hstep.
    unfold bind. destruct (run_op fuel o p) as [[] p1| |]; cbn [safely] in *.
    + apply IH; assumption.
    + exact Hstep.
    + exact I.
Qed.

(** A sequence without a bare [Backup] carries no obligation. *)
Lemma guarded_without_Backup (fuel : nat) (ops : list op) (p : Parser) :
  ~ In OpBackup ops -> guarded fuel ops p = true.
Proof.
  revert p. induction ops as [|o ops IH]; intros p Hn; [reflexivity|].
  cbn [guarded]. apply andb_true_iff. split.
  - destruct o; try reflexivity. exfalso. apply Hn. left. reflexivity.
  - destruct (run_op fuel o p); try reflexivity.
    apply IH. intros Hin. apply Hn. right. exact Hin.
Qed.

(** C6, as amended. On a parser made by [New] the invariant
    [start <= pos <= len(input)] holds after every sequence of [Next],
    [Peek], [Accept], [AcceptRun], [ForwardUntil], [Emit], [Ignore] and of
    [Backup] calls each made while the rune of the stored width still lies
    inside the current token ([start + width <= pos]); no call of such a
    sequence panics. *)
Theorem cursor_inv_guarded (input0 : GoString.t) (root : ASTNode)
  (fuel : nat) (ops : list op)
  (Hlen : len input0 <= GoInt.int_max)
  (Hg : guarded fuel ops (New input0 root) = true) :
  safely (fun _ p' => cursor_inv p') (run_ops fuel ops (New input0 root)).
Proof.
  eapply safely_weaken; [|apply run_ops_ok].
  - intros ? p' H. apply cursor_ok_inv. exact H.
  - apply cursor_ok_New. exact Hlen.
  - exact Hg.
Qed.

Lemma cursor_inv_guarded_witness :
  exists p',
    run_ops 8 [OpNext; OpBackup; OpAcceptRun (lit "a"); OpEmit; OpPeek;
               OpForwardUntil (lit "c"); OpAccept (lit "c"); OpIgnore; OpNext]
      (New (lit "aabc") (node 0)) = Ok tt p' /\
    cursor_inv p'.
Proof.
  pose proof (cursor_inv_guarded (lit "aabc") (node 0) 8
    [OpNext; OpBackup; OpAcceptRun (lit "a"); OpEmit; OpPeek;
     OpForwardUntil (lit "c"); OpAccept (lit "c"); OpIgnore; OpNext]) as H.
  assert (Hlen : len (lit "aabc") <= GoInt.int_max)
    by (vm_compute; discriminate).
  specialize (H Hlen eq_refl).
  destruct (run_ops _ _ _) as [[] p'| |] eqn:E.
  - exists p'. split; [reflexivity | exact H].
  - destruct H.
  - exfalso. vm_compute in E. discriminate E.
Defined.

(** C6 as stated fails: [Next], [Emit], [Backup] on "ab" leaves [start] at 1
    and [pos] at 0. *)
Lemma cursor_inv_counterexample :
  exists p',
    run_ops 0 [OpNext; OpEmit; OpBackup] (New (lit "ab") (node 0)) = Ok tt p' /\
    start p' = 1 /\ pos p' = 0 /\ ~ cursor_inv p'.
Proof.
  eexists. split; [vm_compute; reflexivity|].
  split; [reflexivity|]. split; [reflexivity|].
  unfold cursor_inv. fields. lia.
Qed.

(** ** The sentinel and the decoder *)

Lemma all_from_spec (n : nat) (lo : Z) (f : Z -> bool) :
  all_from n lo f = true ->
  forall z, lo <= z < lo + Z.of_nat n -> f z = true.
Proof.
  revert lo. induction n as [|n IH]; intros lo H z Hz; [lia|].
  cbn [all_from] in H. apply andb_true_iff in H. destruct H as [H1 H2].
  destruct (Z.eq_dec z lo) as [->|Hne]; [exact H1|].
  apply (IH (lo + 1) H2). lia.
Qed.

Lemma rune2_not_EOF s0 b1 : 0 <= s0 < 256 -> 0 <= b1 < 256 -> rune2 s0 b1 <> EOF.
Proof.
  intros H0 H1.
  assert (H : all_from 256 0 (fun s0 => all_from 256 0 (fun b1 => negb (rune2 s0 b1 =? EOF))) = true)
    by (vm_compute; reflexivity).
  pose proof (all_from_spec _ _ _ H s0 ltac:(lia)) as Ha. cbv beta in Ha.
  pose proof (all_from_spec _ _ _ Ha b1 ltac:(lia)) as Hb. cbv beta in Hb.
  apply negb_true_iff, Z.eqb_neq in Hb. exact Hb.
Qed.

Lemma rune3_EOF s0 b1 b2 :
  0xE0 <= s0 <= 0xEF -> 0x80 <= b1 <= 0xBF -> 0x80 <= b2 <= 0xBF ->
  rune3 s0 b1 b2 = EOF -> s0 = 0xE2 /\ b1 = 0x88 /\ b2 = 0x8E.
Proof.
  intros H0 H1 H2 HE.
  assert (H : all_from 16 0xE0 (fun s0 => all_from 64 0x80 (fun b1 => all_from 64 0x80 (fun b2 =>
     implb (rune3 s0 b1 b2 =? EOF) ((s0 =? 0xE2) && (b1 =? 0x88) && (b2 =? 0x8E))))) = true)
    by (vm_compute; reflexivity).
  pose proof (all_from_spec _ _ _ H s0 ltac:(lia)) as Ha. cbv beta in Ha.
  pose proof (all_from_spec _ _ _ Ha b1 ltac:(lia)) as Hb. cbv beta in Hb.
  pose proof (all_from_spec _ _ _ Hb b2 ltac:(lia)) as Hc. cbv beta in Hc.
  apply Z.eqb_eq in HE. rewrite HE in Hc. cbn [implb] in Hc.
  apply andb_true_iff in Hc. destruct Hc as [Hc Hc2].
  apply andb_true_iff in Hc. destruct Hc as [Hc0 Hc1].
  apply Z.eqb_eq in Hc0, Hc1, Hc2. auto.
Qed.

Lemma rune4_high s0 b1 b2 b3 :
  Z.shiftr (rune4 s0 b1 b2 b3) 12 =
  Z.lor (Z.shiftl (Z.land s0 utf8.mask4) 6) (Z.land b1 utf8.maskx).
Proof.
  unfold rune4.
  rewrite !Z.shiftr_lor.
  rewrite (Z.shiftr_shiftl_r _ 6 12) by lia.
  rewrite !Z.shiftr_shiftl_l by lia.
  rewrite !Z.shiftr_land.
  change (Z.shiftr utf8.maskx (12 - 6)) with 0.
  change (Z.shiftr utf8.maskx 12) with 0.
  change (18 - 12) with 6. change (12 - 12) with 0.
  rewrite !Z.land_0_r, !Z.lor_0_r, Z.shiftl_0_r. reflexivity.
Qed.

Lemma rune4_not_EOF s0 b1 b2 b3 :
  (s0 = 0xF0 /\ 0x90 <= b1 <= 0xBF) \/ (0xF1 <= s0 <= 0xF4 /\ 0x80 <= b1 <= 0xBF) ->
  rune4 s0 b1 b2 b3 <> EOF.
Proof.
  intros H0 HE.
  apply (f_equal (fun z => Z.shiftr z 12)) in HE.
  rewrite rune4_high in HE. change (Z.shiftr EOF 12) with 2 in HE.
  assert (H : all_from 5 0xF0 (fun s0 => all_from 64 0x80 (fun b1 => 
     implb ((0x90 <=? b1) || (0xF1 <=? s0))
        (negb (Z.lor (Z.shiftl (Z.land s0 utf8.mask4) 6) (Z.land b1 utf8.maskx) =? 2)))) = true)
    by (vm_compute; reflexivity).
  pose proof (all_from_spec _ _ _ H s0 ltac:(lia)) as Ha. cbv beta in Ha.
  pose proof (all_from_spec _ _ _ Ha b1 ltac:(lia)) as Hb. cbv beta in Hb.
  replace ((0x90 <=? b1) || (0xF1 <=? s0)) with true in Hb.
  2:{ symmetry. apply orb_true_iff. destruct H0 as [[-> ?]|[? ?]]; [left|right]; apply Z.leb_le; lia. }
  cbn [implb] in Hb.
  apply negb_true_iff, Z.eqb_neq in Hb. contradiction.
Qed.

Lemma b2z_range (b : byte) : 0 <= b2z b < 256.
Proof. unfold b2z. pose proof (Byte.to_N_bounded b). lia. Qed.

Lemma b2z_inj (b c : byte) : b2z b = b2z c -> b = c.
Proof.
  unfold b2z. intros H. apply N2Z.inj in H.
  pose proof (Byte.of_to_N b) as Hb. rewrite H, Byte.of_to_N in Hb.
  congruence.
Qed.

Lemma at_range (s : GoString.t) (i : nat) : 0 <= at_ s i < 256.
Proof. apply b2z_range. Qed.

Lemma first_cases (b : Z) :
  exists x, utf8.first b = x /\
    ((x = utf8.as_ /\ b < 0x80) \/ (x = utf8.xx /\ True) \/
     (x = utf8.s1 /\ 0xC2 <= b <= 0xDF) \/ (x = utf8.s2 /\ b = 0xE0) \/
     (x = utf8.s3 /\ 0xE1 <= b <= 0xEF) \/ (x = utf8.s4 /\ b = 0xED) \/
     (x = utf8.s5 /\ b = 0xF0) \/ (x = utf8.s6 /\ 0xF1 <= b <= 0xF3) \/
     (x = utf8.s7 /\ b = 0xF4)).
Proof.
  unfold utf8.first. split_ifs; zbool; eexists; (split; [reflexivity|]);
    repeat (first [ left; split; [reflexivity | lia] | right ]);
    (split; [reflexivity | lia]).
Qed.

Lemma prefix_of_bytes (s : GoString.t) :
  3 <= len s -> at_ s 0 = 0xE2 -> at_ s 1 = 0x88 -> at_ s 2 = 0x8E ->
  has_prefix s EOF_bytes = true.
Proof.
  intros Hn H0 H1 H2.
  destruct s as [|c0 [|c1 [|c2 tl]]];
    try (unfold len in Hn; cbn [List.length] in Hn; lia).
  unfold at_ in *. cbn [nth] in *.
  change 0xE2 with (b2z xe2) in H0. change 0x88 with (b2z x88) in H1.
  change 0x8E with (b2z x8e) in H2.
  apply b2z_inj in H0, H1, H2. subst. reflexivity.
Qed.

Ltac decode_case c :=
  let ge := eval vm_compute in (c >=? utf8.as_) in
  let sz := eval vm_compute in (Z.land c 7) in
  let acc := eval vm_compute in (utf8.acceptRanges (Z.shiftr c 4)) in
  let le2 := eval vm_compute in (sz <=? 2) in
  let le3 := eval vm_compute in (sz <=? 3) in
  change (c >=? utf8.as_) with ge; cbv iota;
  try change (utf8.acceptRanges (Z.shiftr c 4)) with acc;
  try change (Z.land c 7) with sz;
  try change (sz <=? 2) with le2;
  try change (sz <=? 3) with le3;
  cbv iota; cbn [fst snd].

Ltac decode_leaf :=
  let H := fresh "H" in
  cbn [fst]; intros H; zbool; unfold utf8.locb, utf8.hicb in *;
  lazymatch type of H with
  | utf8.RuneError = EOF => vm_compute in H; discriminate H
  | Z.lor (Z.lor (Z.lor _ _) _) _ = EOF =>
      exfalso; revert H; apply rune4_not_EOF; lia
  | Z.lor (Z.lor _ _) _ = EOF =>
      apply rune3_EOF in H; [ | lia | lia | lia ];
      destruct H as (? & ? & ?); apply prefix_of_bytes; [lia | assumption..]
  | Z.lor _ _ = EOF =>
      exfalso; revert H; apply rune2_not_EOF; assumption
  end.

Lemma DecodeRuneInString_EOF (s : GoString.t) :
  fst (utf8.DecodeRuneInString s) = EOF -> has_prefix s EOF_bytes = true.
Proof.
  unfold utf8.DecodeRuneInString.
  pose proof (at_range s 0) as R0. pose proof (at_range s 1) as R1.
  pose proof (at_range s 2) as R2. pose proof (at_range s 3) as R3.
  destruct (len s <? 1) eqn:En; [decode_leaf|].
  destruct (first_cases (at_ s 0)) as (x & Hx & Hc).
  cbv zeta. rewrite Hx.
  destruct Hc as [[-> Hr]|[[-> _]|[[-> Hr]|[[-> Hr]|[[-> Hr]|[[-> Hr]|[[-> Hr]|[[-> Hr]|[-> Hr]]]]]]]]].
  - decode_case utf8.as_.
    change (Z.shiftr (GoInt.wrap32 (Z.shiftl utf8.as_ 31)) 31) with 0.
    change (Z.lnot 0) with (-1).
    rewrite Z.land_m1_r, Z.land_0_r, Z.lor_0_r.
    intros H. unfold EOF in H. lia.
  - decode_case utf8.xx.
    change (Z.shiftr (GoInt.wrap32 (Z.shiftl utf8.xx 31)) 31) with (-1).
    change (Z.lnot (-1)) with 0.
    rewrite Z.land_0_r, Z.land_m1_r, Z.lor_0_l.
    intros H. vm_compute in H. discriminate H.
  - decode_case utf8.s1. split_ifs; decode_leaf.
  - decode_case utf8.s2. split_ifs; decode_leaf.
  - decode_case utf8.s3. split_ifs; decode_leaf.
  - decode_case utf8.s4. split_ifs; decode_leaf.
  - decode_case utf8.s5. split_ifs; decode_leaf.
  - decode_case utf8.s6. split_ifs; decode_leaf.
  - decode_case utf8.s7. split_ifs; decode_leaf.
Qed.

Lemma DecodeRuneInString_of_EOF_bytes (s : GoString.t) :
  has_prefix s EOF_bytes = true -> utf8.DecodeRuneInString s = (EOF, 3).
Proof.
  intros H.
  destruct s as [|c0 [|c1 [|c2 tl]]]; try discriminate H;
    try (cbn in H; rewrite ?andb_false_r in H; discriminate H).
  cbn [has_prefix EOF_bytes] in H. rewrite andb_true_r in H.
  apply andb_true_iff in H. destruct H as [H0 H].
  apply andb_true_iff in H. destruct H as [H1 H2].
  apply Byte.byte_dec_bl in H0, H1, H2. subst.
  unfold utf8.DecodeRuneInString.
  assert (Hn : 3 <= len (xe2 :: x88 :: x8e :: tl))
    by (unfold len; cbn [List.length]; lia).
  destruct (len _ <? 1) eqn:E1; [zbool; lia|].
  change (at_ (xe2 :: x88 :: x8e :: tl) 0) with 0xE2.
  change (at_ (xe2 :: x88 :: x8e :: tl) 1) with 0x88.
  change (at_ (xe2 :: x88 :: x8e :: tl) 2) with 0x8E.
  cbv zeta.
  change (utf8.first 0xE2) with utf8.s3.
  decode_case utf8.s3.
  destruct (len _ <? 3) eqn:E3; [zbool; lia|].
  reflexivity.
Qed.

(** The decoder yields the code point of the sentinel exactly on the three
    bytes that encode it. *)
Lemma DecodeRuneInString_EOF_iff (s : GoString.t) :
  fst (utf8.DecodeRuneInString s) = EOF <-> has_prefix s EOF_bytes = true.
Proof.
  split.
  - apply DecodeRuneInString_EOF.
  - intros H. rewrite (DecodeRuneInString_of_EOF_bytes s H). reflexivity.
Qed.

(** C9, as amended. At a position strictly before the end of the input
    [Next] returns the rune that [utf8.DecodeRuneInString] decodes from the
    bytes at [pos], moves [pos] by its width and leaves [err] as it was, so
    that the end-of-input condition is not recorded; the rune equals the
    sentinel [EOF] exactly when the bytes at [pos] are E2 88 8E, the
    encoding of U+220E. *)
Theorem Next_before_end (p : Parser) (Hpos : 0 <= pos p < len (input p)) :
  exists rest r w p',
    slice_from (input p) (pos p) = Some rest /\
    utf8.DecodeRuneInString rest = (r, w) /\
    Next p = Ok r p' /\
    pos p' = GoInt.add (pos p) w /\ 1 <= w <= len (input p) - pos p /\
    err p' = err p /\
    (r = EOF <-> has_prefix rest EOF_bytes = true).
Proof.
  unfold Next.
  destruct (pos p >=? len (input p)) eqn:E; [zbool; lia|].
  rewrite slice_from_ok by lia.
  pose proof (DecodeRuneInString_width (skipn (Z.to_nat (pos p)) (input p)))
    as Hw.
  rewrite len_skipn in Hw by lia.
  pose proof (DecodeRuneInString_EOF_iff (skipn (Z.to_nat (pos p)) (input p)))
    as Hiff.
  destruct (utf8.DecodeRuneInString _) as [r w] eqn:ED.
  cbn [fst snd] in Hw, Hiff.
  exists (skipn (Z.to_nat (pos p)) (input p)), r, w.
  destruct (r =? 10); eexists;
    (split; [reflexivity|]); (split; [exact ED|]);
    (split; [reflexivity|]); fields;
    (split; [reflexivity|]); (split; [lia|]); (split; [reflexivity|]);
    exact Hiff.
Qed.

Lemma Next_before_end_witness :
  exists p',
    Next (New (lit "a") (node 0)) = Ok 97 p' /\ pos p' = 1 /\ err p' = None.
Proof.
  assert (Hpos : 0 <= pos (New (lit "a") (node 0))
                  < len (input (New (lit "a") (node 0))))
    by (vm_compute; split; [discriminate | reflexivity]).
  destruct (Next_before_end (New (lit "a") (node 0)) Hpos)
    as (rest & r & w & p' & Hs & Hd & Hn & Hp & _ & He & _).
  vm_compute in Hs. injection Hs as <-.
  vm_compute in Hd. injection Hd as <- <-.
  exists p'. split; [exact Hn|]. split; [exact Hp | exact He].
Defined.

(** C9 as stated fails: on the input that consists of the three bytes of
    U+220E, [Next] at position 0, strictly before the end, returns the
    sentinel. *)
Lemma sentinel_counterexample :
  0 <= pos (New EOF_bytes (node 0)) < len (input (New EOF_bytes (node 0))) /\
  exists p',
    Next (New EOF_bytes (node 0)) = Ok EOF p' /\ pos p' = 3 /\ err p' = None.
Proof.
  split; [vm_compute; split; [discriminate | reflexivity]|].
  eexists. split; [vm_compute; reflexivity|]. split; reflexivity.
Qed.

(** ** What [Backup] does restore: the position *)

(** A read before the end of the input returns the decoded rune and moves
    [pos] by its width, which it stores. *)
Lemma Next_decodes (p : Parser) :
  cursor_ok p -> pos p < len (input p) ->
  exists p1,
    Next p =
      Ok (fst (utf8.DecodeRuneInString (skipn (Z.to_nat (pos p)) (input p))))
         p1 /\
    width p1 =
      snd (utf8.DecodeRuneInString (skipn (Z.to_nat (pos p)) (input p))) /\
    pos p1 = pos p + width p1 /\ 1 <= width p1 /\
    input p1 = input p /\ start p1 = start p /\ err p1 = err p /\
    after_Next p1.
Proof.
  intros Hok Hlt. pose proof (Next_ok p Hok) as Hsafe.
  destruct Hok as (H0 & H1 & H2 & H3 & H4). revert Hsafe. unfold Next.
  destruct (pos p >=? len (input p)) eqn:E; [zbool; lia|].
  rewrite slice_from_ok by lia.
  pose proof (DecodeRuneInString_width (skipn (Z.to_nat (pos p)) (input p)))
    as Hw.
  rewrite len_skipn in Hw by lia. specialize (Hw ltac:(lia)).
  destruct (utf8.DecodeRuneInString _) as [r w]. cbn [fst snd] in *.
  assert (Hadd : GoInt.add (pos p) w = pos p + w).
  { apply add_id. unfold GoInt.in_int, GoInt.int_min, GoInt.int_max in *.
    lia. }
  cbv zeta. fields. rewrite !Hadd.
  destruct (r =? 10); cbn [safely]; intros Hsafe; eexists;
    (split; [reflexivity|]); fields;
    repeat (split; [first [reflexivity | lia]|]); exact Hsafe.
Qed.

(** A [Backup] within its contract lowers [pos] by the stored width and
    touches neither the input, the start of the token nor the error. *)
Lemma Backup_pos (p : Parser) :
  after_Next p ->
  exists p2,
    Backup p = Ok tt p2 /\ pos p2 = pos p - width p /\
    input p2 = input p /\ start p2 = start p /\ err p2 = err p /\
    cursor_ok p2.
Proof.
  intros Hready. pose proof (Backup_ok p Hready) as Hsafe.
  destruct Hready as [(H0 & H1 & H2 & H3 & H4) Hr].
  unfold Backup_ready in Hr. zbool. revert Hsafe. unfold Backup.
  rewrite slice_from_ok by lia.
  destruct (utf8.DecodeRuneInString _) as [r w].
  assert (Hsub : GoInt.sub (pos p) (width p) = pos p - width p).
  { apply sub_id. unfold GoInt.in_int, GoInt.int_min, GoInt.int_max in *.
    lia. }
  cbv zeta. fields.
  destruct (r =? 10); fields; rewrite !Hsub; cbn [safely]; intros Hsafe;
    eexists; (split; [reflexivity|]); fields;
    repeat (split; [reflexivity|]); exact Hsafe.
Qed.

(** The part of C3 that holds: [Peek] never moves [pos]. *)
Lemma Peek_keeps_pos (p : Parser) :
  cursor_ok p ->
  exists r p',
    Peek p = Ok r p' /\ pos p' = pos p /\ start p' = start p /\
    input p' = input p.
Proof.
  intros Hok. unfold Peek, bind, ret.
  destruct (Z_lt_le_dec (pos p) (len (input p))) as [Hlt|Hge].
  - destruct (Next_decodes p Hok Hlt)
      as (p1 & HN & _ & Hp & _ & Hi & Hs & _ & Hr).
    rewrite HN.
    destruct (Backup_pos p1 Hr) as (p2 & HB & Hp2 & Hi2 & Hs2 & _ & _).
    rewrite HB. eexists. exists p2. split; [reflexivity|].
    repeat split; [lia | congruence | congruence].
  - rewrite (Next_at_end p Hge).
    destruct (Backup_pos (set_err (Some ErrEOF) (set_width 0 p)))
      as (p2 & HB & Hp2 & Hi2 & Hs2 & _ & _).
    { destruct Hok as (H0 & H1 & H2 & H3 & H4).
      unfold after_Next, cursor_ok, Backup_ready. fields.
      split; [lia | apply Z.leb_le; lia]. }
    rewrite HB. fields. exists EOF, p2. split; [reflexivity|].
    repeat split; [lia | congruence | congruence].
Qed.

(** The part of C4 that holds: an [Accept] that returns false has not moved
    [pos]. *)
Lemma Accept_false_keeps_pos (valid : GoString.t) (p : Parser) :
  cursor_ok p ->
  exists b p',
    Accept valid p = Ok b p' /\ input p' = input p /\
    (b = false -> pos p' = pos p /\ start p' = start p).
Proof.
  intros Hok. unfold Accept, bind, ret.
  assert (HN : exists r p1,
             Next p = Ok r p1 /\ pos p1 = pos p + width p1 /\
             input p1 = input p /\ start p1 = start p /\ after_Next p1).
  { destruct (Z_lt_le_dec (pos p) (len (input p))) as [Hlt|Hge].
    - destruct (Next_decodes p Hok Hlt)
        as (p1 & HN & _ & Hp & _ & Hi & Hs & _ & Hr).
      eexists. exists p1. repeat split; try eassumption; apply Hr.
    - rewrite (Next_at_end p Hge). eexists. eexists.
      split; [reflexivity|]. fields.
      destruct Hok as (H0 & H1 & H2 & H3 & H4).
      unfold after_Next, cursor_ok, Backup_ready. fields.
      repeat split; first [lia | apply Z.leb_le; lia]. }
  destruct HN as (r & p1 & HN & Hp & Hi & Hs & Hr). rewrite HN.
  destruct (strings.IndexRune valid r >=? 0).
  - exists true, p1. split; [reflexivity|]. split; [exact Hi|].
    discriminate.
  - destruct (Backup_pos p1 Hr) as (p2 & HB & Hp2 & Hi2 & Hs2 & _ & _).
    rewrite HB. exists false, p2. split; [reflexivity|].
    split; [congruence|]. intros _. split; [lia | congruence].
Qed.

(** ** When [ForwardUntil] does return *)

Lemma skipn_more (s : GoString.t) (a b : Z) :
  0 <= a -> 0 <= b ->
  skipn (Z.to_nat b) (skipn (Z.to_nat a) s) = skipn (Z.to_nat (a + b)) s.
Proof.
  intros Ha Hb. rewrite skipn_skipn. f_equal. lia.
Qed.

Lemma ForwardUntil_loop_stops (n : nat) (stopper : GoString.t) (p : Parser)
  (k : Z) :
  cursor_ok p ->
  first_stop n stopper (skipn (Z.to_nat (pos p)) (input p)) = Some k ->
  exists p1,
    ForwardUntil_loop n stopper p = Ok tt p1 /\ after_Next p1 /\
    pos p1 - width p1 = pos p + k /\ 0 <= k /\ input p1 = input p /\
    start p1 = start p /\ err p1 = err p.
Proof.
  revert p k. induction n as [|n IH]; intros p k Hok Hfs; [discriminate Hfs|].
  cbn [first_stop] in Hfs.
  assert (Hbounds : 0 <= pos p <= len (input p))
    by (unfold cursor_ok in Hok; lia).
  rewrite len_skipn in Hfs by lia.
  destruct (len (input p) - pos p <? 1) eqn:E; [discriminate Hfs|]. zbool.
  destruct (Next_decodes p Hok ltac:(lia))
    as (p1 & HN & Hw & Hp & Hw1 & Hi & Hs & He & Hr).
  cbn [ForwardUntil_loop]. unfold bind at 1. rewrite HN.
  destruct (utf8.DecodeRuneInString _) as [r w]. cbn [fst snd] in *.
  destruct (strings.IndexRune stopper r =? -1).
  - destruct (first_stop n stopper _) as [k'|] eqn:Ek; [|discriminate Hfs].
    cbn [option_map] in Hfs. injection Hfs as <-.
    rewrite skipn_more in Ek by lia.
    replace (pos p + w) with (pos p1) in Ek by lia. rewrite <- Hi in Ek.
    destruct (IH p1 k' (proj1 Hr) Ek)
      as (p2 & HL & Hr2 & Hp2 & Hk & Hi2 & Hs2 & He2).
    exists p2. split; [exact HL|]. split; [exact Hr2|].
    repeat split; try lia; congruence.
  - injection Hfs as <-. exists p1. split; [reflexivity|].
    split; [exact Hr|]. repeat split; try lia; congruence.
Qed.

(** Where a rune of the stop set occurs in the rest of the input,
    [ForwardUntil] returns with [pos] just before the first such rune. *)
Lemma ForwardUntil_stops (n : nat) (stopper : GoString.t) (p : Parser)
  (k : Z) :
  cursor_ok p ->
  first_stop n stopper (skipn (Z.to_nat (pos p)) (input p)) = Some k ->
  exists p',
    ForwardUntil n stopper p = Ok tt p' /\ pos p' = pos p + k /\
    input p' = input p /\ start p' = start p /\ err p' = err p.
Proof.
  intros Hok Hfs.
  destruct (ForwardUntil_loop_stops n stopper p k Hok Hfs)
    as (p1 & HL & Hr & Hp & Hk & Hi & Hs & He).
  destruct (Backup_pos p1 Hr) as (p2 & HB & Hp2 & Hi2 & Hs2 & He2 & _).
  unfold ForwardUntil, bind. rewrite HL, HB.
  exists p2. split; [reflexivity|]. repeat split; try lia; congruence.
Qed.

(** ** The examples of the specification, run on the embedding *)

Example Emit_twice :
  exists p',
    (Next ;; Next ;; a <- Emit ;; b <- Emit ;; ret (a, b))
      (New (lit "ab") (node 0)) = Ok (lit "ab", []) p'.
Proof. eexists. vm_compute. reflexivity. Qed.

Example AcceptRun_aaab :
  exists p',
    (AcceptRun 9 (lit "a") ;; Peek) (New (lit "aaab") (node 0)) = Ok 98 p' /\
    pos p' = 3.
Proof. eexists. split; [vm_compute; reflexivity | reflexivity]. Qed.

Example line_and_column :
  exists p',
    Next_times 4 (New (lit "ab" ++ nl ++ lit "cd") (node 0)) =
      Ok [97; 98; 10; 99] p' /\
    line p' = 1 /\ linepos p' = 1.
Proof. eexists. split; [vm_compute; reflexivity | split; reflexivity]. Qed.

Example AddNode_then_PopNode :
  exists p',
    (AddNode (node 1) ;; AddNode (node 2) ;; PopNode ;; currentNode)
      (New (lit "x") (node 0)) = Ok (node 1) p' /\
    children p' = [(node 0, node 1); (node 1, node 2)].
Proof. eexists. split; [vm_compute; reflexivity | reflexivity]. Qed.

Example digits_then_letters :
  exists p1 p2 p3,
    (AcceptRun 9 (lit "0123456789") ;; Emit) (New (lit "123abc") (node 0)) =
      Ok (lit "123") p1 /\
    Peek p1 = Ok 97 p2 /\ pos p2 = 3 /\
    Run 1 (Some (digits_state 9)) (New (lit "123abc") (node 0)) = Ok None p3 /\
    err p3 = None.
Proof.
  do 3 eexists.
  split; [vm_compute; reflexivity|]. split; [vm_compute; reflexivity|].
  split; [reflexivity|]. split; [vm_compute; reflexivity | reflexivity].
Qed.

(** ** When [ForwardUntil] does not return *)

(** Where no rune of the stop set occurs in the rest of the input, and the
    sentinel is not in the stop set either, the loop of [ForwardUntil] runs
    for ever. *)
Lemma ForwardUntil_loop_no_stop (fuel : nat) (stopper : GoString.t)
  (p : Parser) :
  cursor_ok p ->
  (forall n, first_stop n stopper (skipn (Z.to_nat (pos p)) (input p)) = None) ->
  strings.IndexRune stopper EOF = -1 ->
  ForwardUntil_loop fuel stopper p = Timeout.
Proof.
  intros Hok Hnone HE. revert p Hok Hnone.
  induction fuel as [|fuel IH]; intros p Hok Hnone; [reflexivity|].
  destruct (Z_lt_le_dec (pos p) (len (input p))) as [Hlt|Hge];
    [|apply ForwardUntil_loop_at_end; assumption].
  assert (Hbounds : 0 <= pos p <= len (input p))
    by (unfold cursor_ok in Hok; lia).
  destruct (Next_decodes p Hok Hlt)
    as (p1 & HN & Hw & Hp & Hw1 & Hi & Hs & He & Hr).
  assert (Hstep : forall n,
             first_stop (S n) stopper (skipn (Z.to_nat (pos p)) (input p))
             = None) by (intros n; apply Hnone).
  cbn [first_stop] in Hstep. rewrite len_skipn in Hstep by lia.
  replace (len (input p) - pos p <? 1) with false in Hstep
    by (symmetry; apply Z.ltb_ge; lia).
  destruct (utf8.DecodeRuneInString _) as [r w]. cbn [fst snd] in *.
  destruct (strings.IndexRune stopper r =? -1) eqn:EI;
    [|discriminate (Hstep O)].
  apply Z.eqb_eq in EI.
  rewrite (ForwardUntil_loop_step fuel stopper p p1 r HN EI).
  apply IH; [exact (proj1 Hr)|].
  intros n. specialize (Hstep n).
  rewrite skipn_more in Hstep by lia.
  replace (pos p + w) with (pos p1) in Hstep by lia. rewrite <- Hi in Hstep.
  destruct (first_stop n stopper _); [discriminate Hstep | reflexivity].
Qed.

(** Where no rune of the stop set occurs in the rest of the input, and the
    sentinel is not in the stop set either, [ForwardUntil] does not return. *)
Lemma ForwardUntil_no_stop (fuel : nat) (stopper : GoString.t) (p : Parser) :
  cursor_ok p ->
  (forall n, first_stop n stopper (skipn (Z.to_nat (pos p)) (input p)) = None) ->
  strings.IndexRune stopper EOF = -1 ->
  ForwardUntil fuel stopper p = Timeout.
Proof.
  intros Hok Hnone HE. unfold ForwardUntil, bind.
  rewrite (ForwardUntil_loop_no_stop fuel stopper p Hok Hnone HE).
  reflexivity.
Qed.

(** * Further properties of the code *)

(** ** Tokens *)

Lemma slice_ok (s : GoString.t) (lo hi : Z) :
  0 <= lo <= hi -> hi <= len s ->
  slice s lo hi = Some (firstn (Z.to_nat (hi - lo)) (skipn (Z.to_nat lo) s)).
Proof.
  intros [H1 H2] H3. unfold slice.
  apply Z.leb_le in H1, H2, H3. rewrite H1, H2, H3. reflexivity.
Qed.

Lemma slice_partition (s : GoString.t) (lo hi : Z) :
  0 <= lo <= hi -> hi <= len s ->
  firstn (Z.to_nat lo) s ++
  firstn (Z.to_nat (hi - lo)) (skipn (Z.to_nat lo) s) ++
  skipn (Z.to_nat hi) s = s.
Proof.
  intros H1 H2.
  replace (Z.to_nat hi) with (Z.to_nat (hi - lo) + Z.to_nat lo)%nat by lia.
  rewrite <- skipn_skipn, firstn_skipn, firstn_skipn. reflexivity.
Qed.

(** [Emit] hands out the bytes of the input from [start] to [pos], which
    together with the bytes before and after them make up the input, and
    moves [start] to [pos]; an [Emit] that follows at once returns the empty
    string and changes nothing. *)
Theorem Emit_token (p : Parser) (Hok : cursor_ok p) :
  exists tok,
    Emit p = Ok tok (set_start (pos p) p) /\
    firstn (Z.to_nat (start p)) (input p) ++ tok ++
      skipn (Z.to_nat (pos p)) (input p) = input p /\
    len tok = pos p - start p /\
    Emit (set_start (pos p) p) = Ok [] (set_start (pos p) p).
Proof.
  destruct Hok as (H0 & H1 & H2 & H3 & H4).
  exists (firstn (Z.to_nat (pos p - start p))
            (skipn (Z.to_nat (start p)) (input p))).
  split; [unfold Emit; rewrite slice_ok by lia; reflexivity|].
  split; [apply slice_partition; lia|].
  split.
  - unfold len. rewrite length_firstn, length_skipn.
    unfold len in H2. lia.
  - unfold Emit. fields. rewrite slice_ok by lia.
    rewrite Z.sub_diag. reflexivity.
Qed.

Lemma Emit_token_witness :
  exists p1 p2,
    (AcceptRun 9 (lit "0123456789") ;; Ignore ;; AcceptRun 9 (lit "abc"))
      (New (lit "12ab!") (node 0)) = Ok tt p1 /\
    Emit p1 = Ok (lit "ab") p2 /\ Emit p2 = Ok [] p2.
Proof.
  eexists. eexists. split; [vm_compute; reflexivity|].
  match goal with |- Emit ?q = _ /\ _ => set (p1 := q) end.
  assert (Hok : cursor_ok p1) by (vm_compute; repeat split; discriminate).
  destruct (Emit_token p1 Hok) as (tok & HE & _ & _ & HE2).
  assert (Htok : tok = lit "ab").
  { pose proof HE as HE'. vm_compute in HE'. injection HE' as <-.
    reflexivity. }
  subst tok. split; [exact HE | exact HE2].
Defined.

(** [Emit] panics exactly when the offsets are out of order or out of the
    input: [0 <= start <= pos <= len(input)] is what its slice expression
    needs. *)
Theorem Emit_panics_iff (p : Parser) :
  (exists q, Emit p = Panic q) <->
  ~ (0 <= start p /\ start p <= pos p /\ pos p <= len (input p)).
Proof.
  unfold Emit, slice.
  destruct (0 <=? start p) eqn:E0; destruct (start p <=? pos p) eqn:E1;
    destruct (pos p <=? len (input p)) eqn:E2; cbn [andb]; zbool;
    (split; [intros [q Hq]; try discriminate Hq; lia
            | intros Hn; try (exfalso; apply Hn; lia); eexists; reflexivity]).
Qed.

Lemma Emit_panics_iff_witness :
  exists q, (Next ;; Emit ;; Backup ;; Emit) (New (lit "ab") (node 0)) = Panic q.
Proof.
  destruct (proj2 (Emit_panics_iff
                     (mkParser [node 0] (lit "ab") 1 0 1 0 0 0 0 None [])))
    as [q Hq].
  - vm_compute. intros (_ & H & _). apply H. reflexivity.
  - exists q. vm_compute. vm_compute in Hq. exact Hq.
Defined.

(** ** [Accept] *)

(** [Accept] reads one rune. If the rune belongs to the set, the call
    returns true and leaves the parser as the read left it; if not, it
    returns false with [pos] and the start of the token where they were. *)
Theorem Accept_reads_one (valid : GoString.t) (p : Parser)
  (Hok : cursor_ok p) :
  exists r p1,
    Next p = Ok r p1 /\
    ((0 <= strings.IndexRune valid r /\ Accept valid p = Ok true p1) \/
     (strings.IndexRune valid r < 0 /\
      exists p2, Accept valid p = Ok false p2 /\ pos p2 = pos p /\
                 start p2 = start p /\ input p2 = input p)).
Proof.
  assert (HN : exists r p1,
             Next p = Ok r p1 /\ pos p1 = pos p + width p1 /\
             input p1 = input p /\ start p1 = start p /\ after_Next p1).
  { destruct (Z_lt_le_dec (pos p) (len (input p))) as [Hlt|Hge].
    - destruct (Next_decodes p Hok Hlt)
        as (p1 & HN & _ & Hp & _ & Hi & Hs & _ & Hr).
      eexists. exists p1. repeat split; try eassumption; apply Hr.
    - rewrite (Next_at_end p Hge). eexists. eexists.
      split; [reflexivity|]. fields.
      destruct Hok as (H0 & H1 & H2 & H3 & H4).
      unfold after_Next, cursor_ok, Backup_ready. fields.
      repeat split; first [lia | apply Z.leb_le; lia]. }
  destruct HN as (r & p1 & HN & Hp & Hi & Hs & Hr).
  exists r, p1. split; [exact HN|].
  unfold Accept, bind, ret. rewrite HN.
  destruct (strings.IndexRune valid r >=? 0) eqn:E; zbool.
  - left. split; [exact E | reflexivity].
  - right. split; [exact E|].
    destruct (Backup_pos p1 Hr) as (p2 & HB & Hp2 & Hi2 & Hs2 & _ & _).
    rewrite HB. exists p2. split; [reflexivity|].
    repeat split; [lia | congruence | congruence].
Qed.

Lemma Accept_reads_one_witness :
  exists p1 p2,
    Accept (lit "+-") (New (lit "-7") (node 0)) = Ok true p1 /\ pos p1 = 1 /\
    Accept (lit "+-") p1 = Ok false p2 /\ pos p2 = 1.
Proof.
  assert (H0 : cursor_ok (New (lit "-7") (node 0)))
    by (vm_compute; repeat split; discriminate).
  destruct (Accept_reads_one (lit "+-") _ H0) as (r & p1 & HN & [[_ HA]|[Hlt _]]).
  - exists p1. vm_compute in HN. injection HN as <- <-.
    eexists. split; [exact HA|]. split; [reflexivity|].
    split; [vm_compute; reflexivity | reflexivity].
  - exfalso. vm_compute in HN. injection HN as <- <-.
    vm_compute in Hlt. discriminate Hlt.
Defined.

(** ** Lines and columns *)

(** What a read does to the line and the column. *)
Lemma Next_lines (p : Parser) :
  lines_ok p ->
  exists r p',
    Next p = Ok r p' /\ lines_ok p' /\
    line p' = line p + (if r =? 10 then 1 else 0) /\
    input p' = input p.
Proof.
  intros (Hok & Hl & Hc & Hlc).
  destruct (Z_lt_le_dec (pos p) (len (input p))) as [Hlt|Hge].
  - pose proof (Next_decodes p Hok Hlt) as HN. revert HN. unfold Next.
    destruct Hok as (H0 & H1 & H2 & H3 & H4).
    destruct (pos p >=? len (input p)) eqn:E; [zbool; lia|].
    rewrite slice_from_ok by lia.
    destruct (utf8.DecodeRuneInString _) as [r w]. cbv zeta. fields.
    assert (Hline : GoInt.add (line p) 1 = line p + 1).
    { apply add_id. unfold GoInt.in_int, GoInt.int_min, GoInt.int_max in *.
      lia. }
    assert (Hcol : GoInt.add (linepos p) 1 = linepos p + 1).
    { apply add_id. unfold GoInt.in_int, GoInt.int_min, GoInt.int_max in *.
      lia. }
    rewrite Hline, Hcol.
    destruct (r =? 10) eqn:Er;
      intros (p1 & HN & Hw & Hp & Hw1 & Hi & Hs & He & Hr);
      injection HN as <-; exists r; eexists; (split; [reflexivity|]);
      unfold lines_ok; fields; rewrite Er, Hp;
      (split; [|split; [lia | reflexivity]]);
      (split; [rewrite <- Hp; exact (proj1 Hr)|]); lia.
  - rewrite (Next_at_end p Hge). exists EOF. eexists. split; [reflexivity|].
    change (EOF =? 10) with false. unfold lines_ok, cursor_ok in *. fields.
    repeat split; lia.
Qed.

Lemma Next_times_lines (n : nat) (p : Parser) :
  lines_ok p ->
  exists rs p',
    Next_times n p = Ok rs p' /\ lines_ok p' /\
    line p' = line p + newlines rs /\ List.length rs = n /\
    input p' = input p.
Proof.
  revert p. induction n as [|n IH]; intros p H.
  - exists [], p. repeat split; try apply H. unfold newlines. cbn. lia.
  - destruct (Next_lines p H) as (r & p1 & HN & H1 & Hl1 & Hi1).
    destruct (IH p1 H1) as (rs & p' & HT & H' & Hl' & Hlen & Hi').
    exists (r :: rs), p'. cbn [Next_times]. unfold bind, ret.
    rewrite HN, HT. split; [reflexivity|]. split; [exact H'|].
    split; [|split; [cbn; lia | congruence]].
    rewrite Hl', Hl1. unfold newlines. cbn [count_occ].
    destruct (Z.eqb_spec r 10) as [->|Hne].
    + destruct (Z.eq_dec 10 10); [lia | contradiction].
    + destruct (Z.eq_dec r 10); [contradiction | lia].
Qed.

(** On a fresh parser any number of reads returns normally; afterwards the
    line is the number of newline runes read, the column is not negative,
    and line plus column is at most [pos], which is at most the length of
    the input. *)
Theorem line_counts_newlines (input0 : GoString.t) (root : ASTNode)
  (n : nat) (Hlen : len input0 <= GoInt.int_max) :
  exists rs p',
    Next_times n (New input0 root) = Ok rs p' /\ List.length rs = n /\
    line p' = newlines rs /\ 0 <= linepos p' /\
    line p' + linepos p' <= pos p' /\ pos p' <= len input0.
Proof.
  assert (H0 : lines_ok (New input0 root)).
  { split; [apply cursor_ok_New; exact Hlen|]. fields. lia. }
  destruct (Next_times_lines n _ H0) as (rs & p' & HT & H' & Hl & Hn & Hi).
  exists rs, p'. split; [exact HT|]. split; [exact Hn|].
  fields. destruct H' as (Hok & Hl0 & Hc0 & Hlc).
  unfold cursor_ok in Hok. rewrite Hi in Hok. fields.
  repeat split; lia.
Qed.

Lemma line_counts_newlines_witness :
  exists p',
    Next_times 6 (New (lit "a" ++ nl ++ nl ++ lit "bc") (node 0)) =
      Ok [97; 10; 10; 98; 99; EOF] p' /\
    line p' = 2 /\ linepos p' = 2.
Proof.
  assert (Hlen : len (lit "a" ++ nl ++ nl ++ lit "bc") <= GoInt.int_max)
    by (vm_compute; discriminate).
  destruct (line_counts_newlines (lit "a" ++ nl ++ nl ++ lit "bc") (node 0)
              6 Hlen) as (rs & p' & HT & _ & Hl & _).
  exists p'. pose proof HT as HT'. vm_compute in HT'.
  injection HT' as <- <-. split; [exact HT|]. split; reflexivity.
Defined.

(** What [Peek] does to the line before the end of the input: it returns
    the rune at [pos] with [pos] and the column as they were, and the line
    goes up by one if that rune is a newline and down by one if the rune
    after it is a newline. The line is as it was exactly when both are
    newlines or neither is. *)
Theorem Peek_line (p : Parser) (Hok : cursor_ok p)
  (Hlt : pos p < len (input p))
  (Hup : GoInt.in_int (line p + 1)) (Hdown : GoInt.in_int (line p - 1)) :
  let d1 := utf8.DecodeRuneInString (skipn (Z.to_nat (pos p)) (input p)) in
  let d2 :=
    utf8.DecodeRuneInString (skipn (Z.to_nat (pos p + snd d1)) (input p)) in
  exists p',
    Peek p = Ok (fst d1) p' /\ pos p' = pos p /\ linepos p' = linepos p /\
    line p' =
      line p + (if fst d1 =? 10 then 1 else 0)
             - (if fst d2 =? 10 then 1 else 0).
Proof.
  intros d1 d2. subst d1 d2.
  pose proof (Next_decodes p Hok Hlt) as HN.
  destruct Hok as (H0 & H1 & H2 & H3 & H4).
  unfold Peek, bind, ret. revert HN. unfold Next.
  destruct (pos p >=? len (input p)) eqn:E; [zbool; lia|].
  rewrite slice_from_ok by lia.
  destruct (utf8.DecodeRuneInString (skipn (Z.to_nat (pos p)) (input p)))
    as [r w]. cbv zeta. fields. cbn [fst snd].
  intros (p1 & HN & Hw & Hp & Hw1 & Hi & Hs & He & Hr).
  assert (Hadd : GoInt.add (pos p) w = pos p + w).
  { destruct (r =? 10); injection HN as <-; fields; lia. }
  assert (Hpw : pos p + w <= len (input p)).
  { destruct Hr as [(_ & _ & Hr & _) _]. rewrite Hi, Hp, Hw in Hr. exact Hr. }
  assert (Hsub : GoInt.sub (pos p + w) w = pos p)
    by (rewrite sub_id; unfold GoInt.in_int, GoInt.int_min, GoInt.int_max in *;
        lia).
  unfold GoInt.in_int, GoInt.int_min, GoInt.int_max in Hup, Hdown.
  clear HN. rewrite Hadd. unfold Backup.
  destruct (r =? 10); fields; rewrite slice_from_ok by lia;
    destruct (utf8.DecodeRuneInString _) as [r2 w2]; cbv zeta; fields;
    cbn [fst]; destruct (r2 =? 10); fields; rewrite ?Hsub;
    eexists; (split; [reflexivity|]); fields;
    (split; [reflexivity|]); (split; [reflexivity|]);
    rewrite ?add_id, ?sub_id;
    unfold GoInt.in_int, GoInt.int_min, GoInt.int_max; lia.
Qed.

Lemma Peek_line_witness :
  exists p',
    Peek (New (nl ++ nl ++ lit "ab") (node 0)) = Ok 10 p' /\ line p' = 0.
Proof.
  pose (p := New (nl ++ nl ++ lit "ab") (node 0)).
  assert (Hok : cursor_ok p) by (vm_compute; repeat split; discriminate).
  assert (Hlt : pos p < len (input p)) by reflexivity.
  assert (Hup : GoInt.in_int (line p + 1)) by (vm_compute; split; discriminate).
  assert (Hdown : GoInt.in_int (line p - 1))
    by (vm_compute; split; discriminate).
  destruct (Peek_line p Hok Hlt Hup Hdown) as (p' & HP & _ & _ & Hl).
  exists p'. split; [exact HP | exact Hl].
Defined.

(** ** [AcceptRun] *)

Lemma AcceptRun_loop_returns (n : nat) (valid : GoString.t) (p : Parser) :
  cursor_ok p ->
  strings.IndexRune valid EOF < 0 ->
  len (input p) - pos p < Z.of_nat n ->
  exists p1,
    AcceptRun_loop n valid p = Ok tt p1 /\ after_Next p1 /\
    pos p1 - width p1 =
      pos p + accept_prefix n valid (skipn (Z.to_nat (pos p)) (input p)) /\
    input p1 = input p /\ start p1 = start p.
Proof.
  intros Hok HE. revert p Hok.
  induction n as [|n IH]; intros p Hok Hn;
    [unfold cursor_ok in Hok; lia|].
  assert (Hbounds : 0 <= pos p <= len (input p))
    by (unfold cursor_ok in Hok; lia).
  cbn [AcceptRun_loop accept_prefix]. unfold bind at 1.
  rewrite len_skipn by lia.
  destruct (Z_lt_le_dec (pos p) (len (input p))) as [Hlt|Hge].
  - replace (len (input p) - pos p <? 1) with false
      by (symmetry; apply Z.ltb_ge; lia).
    destruct (Next_decodes p Hok Hlt)
      as (p1 & HN & Hw & Hp & Hw1 & Hi & Hs & He & Hr).
    rewrite HN.
    destruct (utf8.DecodeRuneInString _) as [r w]. cbn [fst snd] in *.
    destruct (strings.IndexRune valid r >=? 0).
    + destruct (IH p1 (proj1 Hr)) as (p2 & HL & Hr2 & Hp2 & Hi2 & Hs2).
      { rewrite Hi. lia. }
      exists p2. split; [exact HL|]. split; [exact Hr2|].
      rewrite skipn_more by lia.
      replace (pos p + w) with (pos p1) by lia. rewrite <- Hi.
      repeat split; try lia; congruence.
    + exists p1. split; [reflexivity|]. split; [exact Hr|].
      repeat split; try lia; congruence.
  - replace (len (input p) - pos p <? 1) with true
      by (symmetry; apply Z.ltb_lt; lia).
    rewrite (Next_at_end p Hge).
    replace (strings.IndexRune valid EOF >=? 0) with false
      by (symmetry; rewrite Z.geb_leb; apply Z.leb_gt; exact HE).
    eexists. split; [reflexivity|].
    destruct Hok as (H0 & H1 & H2 & H3 & H4).
    unfold after_Next, cursor_ok, Backup_ready. fields.
    repeat split; first [lia | apply Z.leb_le; lia].
Qed.

(** With a set that does not hold the sentinel, [AcceptRun] returns once the
    budget of iterations exceeds the bytes left, and leaves [pos] just
    after the longest run of runes of the set, with the start of the token
    where it was. *)
Theorem AcceptRun_returns (n : nat) (valid : GoString.t) (p : Parser)
  (Hok : cursor_ok p)
  (HE : strings.IndexRune valid EOF < 0)
  (Hn : len (input p) - pos p < Z.of_nat n) :
  exists p',
    AcceptRun n valid p = Ok tt p' /\
    pos p' =
      pos p + accept_prefix n valid (skipn (Z.to_nat (pos p)) (input p)) /\
    input p' = input p /\ start p' = start p.
Proof.
  destruct (AcceptRun_loop_returns n valid p Hok HE Hn)
    as (p1 & HL & Hr & Hp & Hi & Hs).
  destruct (Backup_pos p1 Hr) as (p2 & HB & Hp2 & Hi2 & Hs2 & _ & _).
  unfold AcceptRun, bind. rewrite HL, HB.
  exists p2. split; [reflexivity|]. repeat split; try lia; congruence.
Qed.

Lemma AcceptRun_returns_witness :
  exists p',
    AcceptRun 5 (lit "a") (New (lit "aaab") (node 0)) = Ok tt p' /\
    pos p' = 3 /\ start p' = 0.
Proof.
  pose (p := New (lit "aaab") (node 0)).
  assert (Hok : cursor_ok p) by (vm_compute; repeat split; discriminate).
  assert (HE : strings.IndexRune (lit "a") EOF < 0) by reflexivity.
  assert (Hn : len (input p) - pos p < Z.of_nat 5) by reflexivity.
  destruct (AcceptRun_returns 5 (lit "a") p Hok HE Hn)
    as (p' & HA & Hp & _ & Hs).
  exists p'. split; [exact HA|]. split; [exact Hp | exact Hs].
Defined.

Lemma AcceptRun_loop_at_end (fuel : nat) (valid : GoString.t) (p : Parser) :
  len (input p) <= pos p ->
  0 <= strings.IndexRune valid EOF ->
  AcceptRun_loop fuel valid p = Timeout.
Proof.
  intros H HE. revert p H. induction fuel as [|fuel IH]; intros p H;
    [reflexivity|].
  cbn [AcceptRun_loop]. unfold bind at 1. rewrite (Next_at_end p H).
  replace (strings.IndexRune valid EOF >=? 0) with true
    by (symmetry; rewrite Z.geb_leb; apply Z.leb_le; exact HE).
  apply IH. exact H.
Qed.

(** With a set that holds the sentinel, [AcceptRun] does not return when
    every rune left in the input belongs to the set: at the end of the
    input it reads the sentinel again and again. *)
Theorem AcceptRun_runs_forever (fuel n : nat) (valid : GoString.t)
  (p : Parser)
  (Hok : cursor_ok p)
  (HE : 0 <= strings.IndexRune valid EOF)
  (Hall : accept_prefix n valid (skipn (Z.to_nat (pos p)) (input p)) =
          len (input p) - pos p) :
  AcceptRun fuel valid p = Timeout.
Proof.
  assert (HL : AcceptRun_loop fuel valid p = Timeout).
  { revert n p Hok Hall. induction fuel as [|fuel IH]; intros n p Hok Hall;
      [reflexivity|].
    destruct (Z_lt_le_dec (pos p) (len (input p))) as [Hlt|Hge];
      [|apply AcceptRun_loop_at_end; assumption].
    assert (Hbounds : 0 <= pos p <= len (input p))
      by (unfold cursor_ok in Hok; lia).
    destruct n as [|n]; [cbn [accept_prefix] in Hall; lia|].
    cbn [accept_prefix] in Hall. rewrite len_skipn in Hall by lia.
    replace (len (input p) - pos p <? 1) with false in Hall
      by (symmetry; apply Z.ltb_ge; lia).
    destruct (Next_decodes p Hok Hlt)
      as (p1 & HN & Hw & Hp & Hw1 & Hi & Hs & He & Hr).
    cbn [AcceptRun_loop]. unfold bind at 1. rewrite HN.
    destruct (utf8.DecodeRuneInString _) as [r w]. cbn [fst snd] in *.
    destruct (strings.IndexRune valid r >=? 0); [|lia].
    apply (IH n p1 (proj1 Hr)).
    rewrite skipn_more in Hall by lia.
    replace (pos p + w) with (pos p1) in Hall by lia.
    rewrite Hi. lia. }
  unfold AcceptRun, bind. rewrite HL. reflexivity.
Qed.

Lemma AcceptRun_runs_forever_witness :
  AcceptRun 100 (lit "ab" ++ EOF_bytes) (New (lit "abba") (node 0)) = Timeout.
Proof.
  pose (p := New (lit "abba") (node 0)).
  assert (Hok : cursor_ok p) by (vm_compute; repeat split; discriminate).
  assert (HE : 0 <= strings.IndexRune (lit "ab" ++ EOF_bytes) EOF)
    by (vm_compute; discriminate).
  assert (Hall : accept_prefix 4 (lit "ab" ++ EOF_bytes)
                   (skipn (Z.to_nat (pos p)) (input p)) =
                 len (input p) - pos p) by reflexivity.
  exact (AcceptRun_runs_forever 100 4 (lit "ab" ++ EOF_bytes) p Hok HE Hall).
Defined.

(** ** [ForwardUntil] at the end of the input *)

Lemma ForwardUntil_loop_to_end (fuel : nat) (stopper : GoString.t)
  (p : Parser) :
  cursor_ok p ->
  (forall n, first_stop n stopper (skipn (Z.to_nat (pos p)) (input p)) = None) ->
  strings.IndexRune stopper EOF <> -1 ->
  len (input p) - pos p < Z.of_nat fuel ->
  exists p1,
    ForwardUntil_loop fuel stopper p = Ok tt p1 /\ after_Next p1 /\
    width p1 = 0 /\ pos p1 = len (input p) /\ err p1 = Some ErrEOF /\
    input p1 = input p /\ start p1 = start p.
Proof.
  intros Hok Hnone HE. revert p Hok Hnone.
  induction fuel as [|fuel IH]; intros p Hok Hnone Hf;
    [unfold cursor_ok in Hok; lia|].
  assert (Hbounds : 0 <= pos p <= len (input p))
    by (unfold cursor_ok in Hok; lia).
  cbn [ForwardUntil_loop]. unfold bind at 1.
  destruct (Z_lt_le_dec (pos p) (len (input p))) as [Hlt|Hge].
  - destruct (Next_decodes p Hok Hlt)
      as (p1 & HN & Hw & Hp & Hw1 & Hi & Hs & He & Hr).
    assert (Hstep : forall n,
               first_stop (S n) stopper (skipn (Z.to_nat (pos p)) (input p))
               = None) by (intros n; apply Hnone).
    cbn [first_stop] in Hstep. rewrite len_skipn in Hstep by lia.
    replace (len (input p) - pos p <? 1) with false in Hstep
      by (symmetry; apply Z.ltb_ge; lia).
    rewrite HN.
    destruct (utf8.DecodeRuneInString _) as [r w]. cbn [fst snd] in *.
    destruct (strings.IndexRune stopper r =? -1) eqn:EI;
      [|discriminate (Hstep O)].
    destruct (IH p1 (proj1 Hr)) as (p2 & HL & Hr2 & Hw2 & Hp2 & He2 & Hi2 & Hs2).
    + intros n. specialize (Hstep n).
      rewrite skipn_more in Hstep by lia.
      replace (pos p + w) with (pos p1) in Hstep by lia.
      rewrite <- Hi in Hstep.
      destruct (first_stop n stopper _); [discriminate Hstep | reflexivity].
    + rewrite Hi. lia.
    + exists p2. split; [exact HL|]. split; [exact Hr2|].
      repeat split; congruence.
  - rewrite (Next_at_end p Hge).
    replace (strings.IndexRune stopper EOF =? -1) with false
      by (symmetry; apply Z.eqb_neq; exact HE).
    eexists. split; [reflexivity|].
    destruct Hok as (H0 & H1 & H2 & H3 & H4).
    unfold after_Next, cursor_ok, Backup_ready. fields.
    repeat split; first [lia | reflexivity | apply Z.leb_le; lia].
Qed.

(** With a stop set that holds the sentinel, [ForwardUntil] does return on
    an input without a rune of the set: it stops at the end of the input,
    with the end-of-input condition recorded. *)
Theorem ForwardUntil_with_sentinel (fuel : nat) (stopper : GoString.t)
  (p : Parser)
  (Hok : cursor_ok p)
  (Hnone : forall n,
      first_stop n stopper (skipn (Z.to_nat (pos p)) (input p)) = None)
  (HE : strings.IndexRune stopper EOF <> -1)
  (Hf : len (input p) - pos p < Z.of_nat fuel) :
  exists p',
    ForwardUntil fuel stopper p = Ok tt p' /\ pos p' = len (input p) /\
    err p' = Some ErrEOF /\ input p' = input p /\ start p' = start p.
Proof.
  destruct (ForwardUntil_loop_to_end fuel stopper p Hok Hnone HE Hf)
    as (p1 & HL & Hr & Hw & Hp & He & Hi & Hs).
  destruct (Backup_pos p1 Hr) as (p2 & HB & Hp2 & Hi2 & Hs2 & He2 & _).
  unfold ForwardUntil, bind. rewrite HL, HB.
  exists p2. split; [reflexivity|]. repeat split; try lia; congruence.
Qed.

Lemma ForwardUntil_with_sentinel_witness :
  exists p',
    ForwardUntil 4 (lit "x" ++ EOF_bytes) (New (lit "abc") (node 0))
      = Ok tt p' /\
    pos p' = 3 /\ err p' = Some ErrEOF.
Proof.
  pose (p := New (lit "abc") (node 0)).
  assert (Hok : cursor_ok p) by (vm_compute; repeat split; discriminate).
  assert (Hnone : forall n,
             first_stop n (lit "x" ++ EOF_bytes)
               (skipn (Z.to_nat (pos p)) (input p)) = None)
    by (intros [|[|[|[|n]]]]; reflexivity).
  assert (HE : strings.IndexRune (lit "x" ++ EOF_bytes) EOF <> -1)
    by (vm_compute; discriminate).
  assert (Hf : len (input p) - pos p < Z.of_nat 4) by reflexivity.
  destruct (ForwardUntil_with_sentinel 4 _ p Hok Hnone HE Hf)
    as (p' & HF & Hp & He & _).
  exists p'. split; [exact HF|]. split; [exact Hp | exact He].
Defined.

Lemma ForwardUntil_stops_witness :
  exists p',
    ForwardUntil 9 (lit ";}") (New (lit "ab;c") (node 0)) = Ok tt p' /\
    pos p' = 2.
Proof.
  pose (p := New (lit "ab;c") (node 0)).
  assert (Hok : cursor_ok p) by (vm_compute; repeat split; discriminate).
  assert (Hfs : first_stop 9 (lit ";}") (skipn (Z.to_nat (pos p)) (input p))
                = Some 2) by reflexivity.
  destruct (ForwardUntil_stops 9 (lit ";}") p 2 Hok Hfs) as (p' & HF & Hp & _).
  exists p'. split; [exact HF | exact Hp].
Defined.

Lemma ForwardUntil_no_stop_witness :
  ForwardUntil 50 (lit ";}") (New (lit "abc") (node 0)) = Timeout.
Proof.
  pose (p := New (lit "abc") (node 0)).
  assert (Hok : cursor_ok p) by (vm_compute; repeat split; discriminate).
  assert (Hnone : forall n,
             first_stop n (lit ";}") (skipn (Z.to_nat (pos p)) (input p))
             = None)
    by (intros [|[|[|[|n]]]]; reflexivity).
  assert (HE : strings.IndexRune (lit ";}") EOF = -1) by reflexivity.
  exact (ForwardUntil_no_stop 50 (lit ";}") p Hok Hnone HE).
Defined.

Lemma Peek_keeps_pos_witness :
  exists r p',
    Peek (New (lit "a" ++ nl) (node 0)) = Ok r p' /\ pos p' = 0.
Proof.
  pose (p := New (lit "a" ++ nl) (node 0)).
  assert (Hok : cursor_ok p) by (vm_compute; repeat split; discriminate).
  destruct (Peek_keeps_pos p Hok) as (r & p' & HP & Hp & _).
  exists r, p'. split; [exact HP | exact Hp].
Defined.

(** ** The builder stack and the tree *)

Lemma nth_error_last (q : list ASTNode) (d : ASTNode) :
  q <> [] -> nth_error q (List.length q - 1) = Some (last q d).
Proof.
  induction q as [|a q IH]; intros H; [contradiction|].
  destruct q as [|b q]; [reflexivity|].
  specialize (IH ltac:(discriminate)).
  cbn [List.length] in *. rewrite Nat.sub_1_r in *. cbn [Nat.pred] in *.
  exact IH.
Qed.

Lemma firstn_app_exact (q : list ASTNode) (n : ASTNode) :
  firstn (List.length (q ++ [n]) - 1) (q ++ [n]) = q.
Proof.
  rewrite length_app. cbn [List.length].
  replace (List.length q + 1 - 1)%nat with (List.length q + 0)%nat by lia.
  rewrite firstn_app_2. cbn [firstn]. apply app_nil_r.
Qed.

(** What [AddNode] does on a stack that is not empty. *)
Lemma AddNode_effect (n : ASTNode) (p : Parser) :
  astQueue p <> [] ->
  match last (astQueue p) nil_node with
  | nil_node => AddNode n p = Panic p
  | node id =>
      AddNode n p =
        Ok tt (set_astQueue (astQueue p ++ [n])
                 (set_children (children p ++ [(node id, n)]) p))
  end.
Proof.
  intros H. unfold AddNode, currentNode, bind, get, checked.
  rewrite (nth_error_last _ nil_node H).
  destruct (last (astQueue p) nil_node); reflexivity.
Qed.

(** On a current node that is not nil, [AddNode] followed by [PopNode]
    leaves the stack as it was; what remains of the pair of calls is the
    child attached to the current node. *)
Theorem AddNode_PopNode_restores (n : ASTNode) (p : Parser) (id : nat)
  (Hcur : last (astQueue p) nil_node = node id) :
  currentNode p = Ok (node id) p /\
  (AddNode n ;; PopNode) p =
    Ok tt (set_children (children p ++ [(node id, n)]) p).
Proof.
  assert (Hne : astQueue p <> []).
  { intros E. rewrite E in Hcur. discriminate Hcur. }
  split.
  - unfold currentNode, bind, get, checked.
    rewrite (nth_error_last _ nil_node Hne), Hcur. reflexivity.
  - pose proof (AddNode_effect n p Hne) as HA. rewrite Hcur in HA.
    unfold bind at 1. rewrite HA.
    unfold PopNode, bind, get, QueueLen. fields.
    replace (Z.of_nat (List.length (astQueue p ++ [n])) <? 2) with false.
    + unfold modify. fields. rewrite firstn_app_exact.
      destruct p. reflexivity.
    + symmetry. apply Z.ltb_ge. rewrite length_app. cbn [List.length].
      destruct (astQueue p); [contradiction | cbn [List.length]; lia].
Qed.

Lemma AddNode_PopNode_restores_witness :
  exists p1 p2,
    AddNode (node 1) (New (lit "x") (node 0)) = Ok tt p1 /\
    (AddNode (node 2) ;; PopNode) p1 = Ok tt p2 /\
    astQueue p2 = astQueue p1 /\
    children p2 = [(node 0, node 1); (node 1, node 2)].
Proof.
  eexists. eexists. split; [vm_compute; reflexivity|].
  match goal with |- (_ ;; _) ?q = _ /\ _ => set (p1 := q) end.
  assert (Hcur : last (astQueue p1) nil_node = node 1) by reflexivity.
  destruct (AddNode_PopNode_restores (node 2) p1 1 Hcur) as [_ H].
  split; [exact H|]. split; reflexivity.
Defined.

Lemma stack_edges_app (q : list ASTNode) (n : ASTNode) :
  q <> [] ->
  stack_edges (q ++ [n]) = stack_edges q ++ [(last q nil_node, n)].
Proof.
  induction q as [|a q IH]; intros H; [contradiction|].
  destruct q as [|b q]; [reflexivity|].
  change ((a :: b :: q) ++ [n]) with (a :: ((b :: q) ++ [n])).
  change (stack_edges (a :: (b :: q) ++ [n]))
    with ((a, b) :: stack_edges ((b :: q) ++ [n])).
  rewrite (IH ltac:(discriminate)). reflexivity.
Qed.

Lemma stack_edges_firstn (k : nat) (q : list ASTNode) :
  incl (stack_edges (firstn k q)) (stack_edges q).
Proof.
  revert k. induction q as [|a q IH]; intros k.
  - rewrite firstn_nil. apply incl_refl.
  - destruct k as [|k]; [intros e []|].
    destruct q as [|b q]; [destruct k; intros e []|].
    destruct k as [|k]; [intros e []|].
    change (firstn (S (S k)) (a :: b :: q))
      with (a :: firstn (S k) (b :: q)).
    specialize (IH (S k)).
    change (firstn (S k) (b :: q)) with (b :: firstn k q) in *.
    change (stack_edges (a :: b :: firstn k q))
      with ((a, b) :: stack_edges (b :: firstn k q)).
    change (stack_edges (a :: b :: q)) with ((a, b) :: stack_edges (b :: q)).
    intros e [He|He]; [left; exact He | right; apply IH; exact He].
Qed.

Lemma PopNode_effect (p : Parser) :
  astQueue p <> [] ->
  exists p',
    PopNode p = Ok tt p' /\ astQueue p' <> [] /\
    incl (stack_edges (astQueue p')) (stack_edges (astQueue p)) /\
    children p' = children p.
Proof.
  intros H. unfold PopNode, bind, get, QueueLen.
  destruct (Z.of_nat (List.length (astQueue p)) <? 2) eqn:E; zbool.
  - exists p. split; [reflexivity|]. split; [exact H|].
    split; [apply incl_refl | reflexivity].
  - eexists. split; [reflexivity|]. unfold modify. fields.
    split; [|split; [apply stack_edges_firstn | reflexivity]].
    destruct (astQueue p) as [|a [|b q]]; cbn [List.length] in E; try lia.
    cbn [List.length]. rewrite Nat.sub_1_r. cbn [Nat.pred firstn].
    discriminate.
Qed.

Lemma run_stack_edges (ops : list stack_op) (p : Parser) :
  astQueue p <> [] ->
  incl (stack_edges (astQueue p)) (children p) ->
  match run_stack ops p with
  | Ok _ p' => incl (stack_edges (astQueue p')) (children p')
  | Panic p' => incl (stack_edges (astQueue p')) (children p')
  | Timeout => False
  end.
Proof.
  revert p. induction ops as [|o ops IH]; intros p Hne Hin; [exact Hin|].
  cbn [run_stack]. unfold bind at 1.
  destruct o as [n|]; cbn [run_stack_op].
  - pose proof (AddNode_effect n p Hne) as HA.
    destruct (last (astQueue p) nil_node) as [|id] eqn:El; rewrite HA;
      [exact Hin|].
    apply IH; fields.
    + destruct (astQueue p); discriminate.
    + rewrite (stack_edges_app _ n Hne), El.
      apply incl_app; [apply incl_appl; exact Hin|].
      apply incl_appr. apply incl_refl.
  - destruct (PopNode_effect p Hne) as (q & HP & Hq & Hsub & Hc).
    rewrite HP. apply IH; [exact Hq|].
    rewrite Hc. intros e He. apply Hin, Hsub, He.
Qed.

(** On a parser made by [New], after every sequence of [AddNode] and
    [PopNode] calls each node on the stack above the root has been attached
    by [AddChild] to the node directly below it. *)
Theorem stack_follows_tree (input0 : GoString.t) (r : ASTNode)
  (ops : list stack_op) :
  match run_stack ops (New input0 r) with
  | Ok _ p' => incl (stack_edges (astQueue p')) (children p')
  | Panic p' => incl (stack_edges (astQueue p')) (children p')
  | Timeout => False
  end.
Proof.
  apply run_stack_edges; fields; [discriminate | intros e []].
Qed.

(** ** The driver and the diagnostic *)

(** [Errorf] returns normally on every parser whose [pos] lies inside the
    input, and records some diagnostic. *)
Lemma Errorf_records (p : Parser) (msg : GoString.t) :
  0 <= pos p <= len (input p) -> GoInt.in_int (pos p + 5) ->
  exists text, Errorf msg p = Ok tt (set_err (Some (errors.New text)) p).
Proof.
  intros Hpos Hend. unfold Errorf.
  rewrite sub_id by
    (unfold GoInt.in_int, GoInt.int_min, GoInt.int_max in *; lia).
  rewrite (add_id (pos p) 5) by assumption.
  rewrite clamp_low, clamp_high, slice_ok by lia.
  rewrite Sprintf_Errorf_format. eexists. reflexivity.
Qed.

(** A diagnostic does not survive a read at the end of the input: after
    [Errorf] at the end of the input the parser reports an error that is not
    the end-of-input condition, and one [Next] later the diagnostic is
    gone and the end-of-input condition stands in its place. *)
Theorem Next_replaces_diagnostic (p : Parser) (msg : GoString.t)
  (Hpos : pos p = len (input p))
  (Hend : GoInt.in_int (pos p + 5)) :
  exists q p',
    Errorf msg p = Ok tt q /\ HasError q = true /\ IsEOF q = false /\
    Next q = Ok EOF p' /\ IsEOF p' = true /\ err p' = Some ErrEOF.
Proof.
  destruct (Errorf_records p msg) as [text HE];
    [pose proof (len_nonneg (input p)); lia | exact Hend |].
  eexists. eexists. split; [exact HE|].
  split; [reflexivity|]. split; [reflexivity|].
  rewrite Next_at_end by (fields; lia).
  split; [reflexivity|]. split; reflexivity.
Qed.

Lemma Next_replaces_diagnostic_witness :
  let p1 := mkParser [node 0] (lit "a") 0 1 1 0 1 0 0 None [] in
  Next (New (lit "a") (node 0)) = Ok 97 p1 /\
  exists q p',
    Errorf (lit "bad") p1 = Ok tt q /\ IsEOF q = false /\
    Next q = Ok EOF p' /\ IsEOF p' = true.
Proof.
  intros p1. split; [reflexivity|].
  assert (Hpos : pos p1 = len (input p1)) by reflexivity.
  assert (Hend : GoInt.in_int (pos p1 + 5))
    by (vm_compute; split; discriminate).
  destruct (Next_replaces_diagnostic p1 (lit "bad") Hpos Hend)
    as (q & p' & HE & _ & Hq & HN & Hp' & _).
  exists q, p'. repeat split; assumption.
Defined.

(** [Run] has a nil result whenever it returns, and on a parser that
    already holds an error it returns at once, without a call of the state
    (which may then even be nil). *)
Theorem Run_never_reports (fuel : nat) (fn : option State) (p : Parser) :
  (forall e p', Run fuel fn p = Ok e p' -> e = None) /\
  (err p <> None -> Run fuel fn p = Ok None p).
Proof.
  split.
  - intros e p'. unfold Run, bind, get, ret.
    destruct (Run_loop fuel fn p) as [fn' q| |]; try discriminate.
    destruct (is_ErrEOF (err q)); intros H; inversion H; reflexivity.
  - intros H. unfold Run, bind, get, ret.
    destruct (err p) as [e|] eqn:E; [|contradiction].
    destruct fuel; cbn [Run_loop]; rewrite E; cbn [is_nil];
      rewrite E; destruct e; reflexivity.
Qed.

Lemma Run_never_reports_witness :
  exists q,
    Errorf (lit "bad") (New (lit "x") (node 0)) = Ok tt q /\
    Run 3 None q = Ok None q.
Proof.
  eexists. split; [vm_compute; reflexivity|].
  match goal with |- Run _ _ ?x = _ => set (q := x) end.
  apply (proj2 (Run_never_reports 3 None q)). discriminate.
Defined.

(** ** The driver of the first revision *)

Lemma V1_Run_loop_error (fuel : nat) (fn fn' : option V1.State)
  (e0 e : option error) (p p' : Parser) :
  V1.Run_loop fuel fn e0 p = Ok (fn', e) p' -> e <> None.
Proof.
  revert fn e0 p. induction fuel as [|fuel IH]; intros fn e0 p;
    cbn [V1.Run_loop]; destruct e0 as [e1|]; cbn [is_nil];
    try discriminate;
    try (intros H; injection H as _ <- _; discriminate).
  destruct fn as [[f]|]; [|discriminate].
  destruct (f p) as [[next e2] q|q|]; try discriminate.
  apply IH.
Qed.

(** In the first revision [Run] returns only after a state has returned an
    error: its result is that error, or nil where the error is [ErrEOF]; it
    is never [ErrEOF] itself. *)
Theorem V1_Run_result (fuel : nat) (fn : option V1.State) (p p' : Parser)
  (e : option error)
  (HR : V1.Run fuel fn p = Ok e p') :
  exists fn' e0,
    V1.Run_loop fuel fn None p = Ok (fn', Some e0) p' /\
    e = (if is_ErrEOF (Some e0) then None else Some e0) /\
    e <> Some ErrEOF.
Proof.
  unfold V1.Run, bind, ret in HR.
  destruct (V1.Run_loop fuel fn None p) as [[fn' e1] q| |] eqn:EL;
    try discriminate.
  pose proof (V1_Run_loop_error _ _ _ _ _ _ _ EL) as Hne.
  destruct e1 as [e0|]; [|contradiction].
  exists fn', e0. cbn [snd] in HR.
  destruct e0; cbn [is_ErrEOF] in *; injection HR as <- <-;
    repeat split; discriminate.
Qed.

(** In the first revision a state that fails with [Errorf] makes [Run]
    return the diagnostic, with the line and the column of the parser and
    the window around [pos], and the parser as it was. *)
Theorem V1_Run_reports (fuel : nat) (p : Parser) (msg : GoString.t)
  (Hpos : 0 <= pos p <= len (input p))
  (Hend : GoInt.in_int (pos p + 5))
  (Hline : GoInt.in_int (line p + 1))
  (Hcol : GoInt.in_int (linepos p + 1)) :
  exists window,
    slice (input p) (Z.max 0 (pos p - 5)) (Z.min (len (input p)) (pos p + 5))
      = Some window /\
    V1.Run (S fuel) (Some (V1.failing msg)) p =
      Ok (Some (errors.New
                  (lit "Error in line " ++ strconv.Itoa (line p + 1) ++
                   lit " at position " ++ strconv.Itoa (linepos p + 1) ++
                   lit ": " ++ msg ++ nl ++
                   lit "context:" ++ nl ++ window ++ nl)))
         p.
Proof.
  eexists. split; [apply slice_ok; lia|].
  unfold V1.Run, V1.failing, bind, ret. cbn [V1.Run_loop is_nil].
  unfold V1.Errorf.
  rewrite sub_id by
    (unfold GoInt.in_int, GoInt.int_min, GoInt.int_max in *; lia).
  rewrite !add_id by assumption.
  rewrite clamp_low, clamp_high, slice_ok by lia.
  rewrite Sprintf_Errorf_format.
  destruct fuel; reflexivity.
Qed.

Lemma V1_Run_reports_witness :
  V1.Run 1 (Some (V1.failing (lit "boom"))) (New (lit "x") (node 0)) =
  Ok (Some (errors.New (lit "Error in line 1 at position 1: boom" ++ nl ++
                        lit "context:" ++ nl ++ lit "x" ++ nl)))
     (New (lit "x") (node 0)).
Proof.
  pose (p := New (lit "x") (node 0)).
  assert (Hpos : 0 <= pos p <= len (input p))
    by (vm_compute; split; discriminate).
  assert (Hend : GoInt.in_int (pos p + 5))
    by (vm_compute; split; discriminate).
  assert (Hline : GoInt.in_int (line p + 1))
    by (vm_compute; split; discriminate).
  assert (Hcol : GoInt.in_int (linepos p + 1))
    by (vm_compute; split; discriminate).
  destruct (V1_Run_reports 0 p (lit "boom") Hpos Hend Hline Hcol)
    as (window & Hw & HR).
  vm_compute in Hw. injection Hw as <-. exact HR.
Defined.

Lemma V1_Run_result_witness :
  exists fn' e0,
    V1.Run_loop 1 (Some (V1.failing (lit "boom"))) None
      (New (lit "x") (node 0)) = Ok (fn', Some e0) (New (lit "x") (node 0)) /\
    e0 <> ErrEOF.
Proof.
  assert (HR : V1.Run 1 (Some (V1.failing (lit "boom")))
                 (New (lit "x") (node 0)) =
               Ok (Some (errors.New
                           (lit "Error in line 1 at position 1: boom" ++ nl ++
                            lit "context:" ++ nl ++ lit "x" ++ nl)))
                  (New (lit "x") (node 0))) by reflexivity.
  destruct (V1_Run_result 1 (Some (V1.failing (lit "boom")))
              (New (lit "x") (node 0)) (New (lit "x") (node 0)) _ HR)
    as (fn' & e0 & HL & He & _).
  exists fn', e0. split; [exact HL|].
  intros ->. cbn [is_ErrEOF] in He. discriminate He.
Defined.
